(** * Firelet core ([lib/flcore.py]): a shallow embedding and its properties

    The development follows the layout of the Python module: input
    validation, the network objects ([Host], [Network], [HostGroup]), the
    rule table, address arithmetic ([net_addr]), and the [FireSet] methods
    ([_oo_forwarded], [compile_rules], [compile_dict], [deploy]).

    Python values are modelled as the code has them: every CSV field is a
    string, a [Network] carries an integer prefix length, the wildcard
    endpoint is [None], dictionaries are finite maps, and every operation
    that can raise returns a [result].

    The embedding comes first, then the vocabulary and the scenarios the
    statements use, then the properties: containment, flattening of host
    groups, reordering of rules, the save gate of [deploy], and what
    [compile_rules] and [compile_dict] put into the chains. *)

From stdpp Require Import gmap strings list fin_maps pretty.
From Stdlib Require Import ZArith Ascii.

Open Scope string_scope.
Open Scope list_scope.
Open Scope Z_scope.

(** ** Exceptions and the result monad *)

(** The exception classes the module can raise.  Messages are kept where
    the source gives a fixed text; formatted messages keep their fixed
    part only. *)
Inductive exn : Type :=
| AssertionError (msg : string)
| Alert (msg : string)
| Exception_ (msg : string)
| KeyError (key : string)
| TypeError (msg : string)
| ValueError
| IndexError
| AddrFormatError
| UnboundLocalError (var : string)
| NameError (var : string)
| RecursionLimit.

Inductive result (A : Type) : Type :=
| OK (a : A)
| Raise (e : exn).
Arguments OK {A} a.
Arguments Raise {A} e.

Definition bind {A B : Type} (r : result A) (k : A → result B) : result B :=
  match r with
  | OK a => k a
  | Raise e => Raise e
  end.

Notation "x ←! r ; k" := (bind r (λ x, k))
  (at level 20, r at level 100, k at level 200, right associativity,
   format "x  ←!  r ; '/' k").
Notation "' pat ←! r ; k" := (bind r (λ x, match x with pat => k end))
  (at level 20, pat pattern, r at level 100, k at level 200,
   right associativity).

(** [map f l] in Python, for an [f] that may raise: elements are visited
    left to right and the first exception is propagated. *)
Fixpoint mapM {A B : Type} (f : A → result B) (l : list A) : result (list B) :=
  match l with
  | [] => OK []
  | x :: l' => y ←! f x; ys ←! mapM f l'; OK (y :: ys)
  end.

(** [assert c, msg]. *)
Definition py_assert (c : bool) (msg : string) : result unit :=
  if c then OK tt else Raise (AssertionError msg).

(** ** Strings *)

(** [sub in s] on Python strings. *)
Fixpoint str_in (sub s : string) : bool :=
  String.prefix sub s ||
  match s with
  | EmptyString => false
  | String _ s' => str_in sub s'
  end.

(** [s.split(c, 1)]: the part before the first [c] and, when there is one,
    the part after it. *)
Fixpoint split_first (c : ascii) (s : string) : string * option string :=
  match s with
  | EmptyString => (EmptyString, None)
  | String a s' =>
      if Ascii.eqb a c then (EmptyString, Some s')
      else let '(hd, tl) := split_first c s' in (String a hd, tl)
  end.

(** [s.split(c)]. *)
Fixpoint split_on (c : ascii) (s : string) : list string :=
  match s with
  | EmptyString => [EmptyString]
  | String a s' =>
      if Ascii.eqb a c then EmptyString :: split_on c s'
      else match split_on c s' with
           | [] => [String a EmptyString]
           | w :: ws => String a w :: ws
           end
  end.

Definition lower_ascii (a : ascii) : ascii :=
  let n := nat_of_ascii a in
  if ((65 <=? n) && (n <=? 90))%nat then ascii_of_nat (n + 32) else a.

(** [s.lower()]. *)
Fixpoint lower (s : string) : string :=
  match s with
  | EmptyString => EmptyString
  | String a s' => String (lower_ascii a) (lower s')
  end.

(** Value of a non-empty string of decimal digits. *)
Fixpoint digits_val_go (acc : N) (s : string) : option N :=
  match s with
  | EmptyString => Some acc
  | String a s' =>
      match Ascii.is_nat a with
      | Some d => digits_val_go (acc * 10 + N.of_nat d)%N s'
      | None => None
      end
  end.

Definition digits_val (s : string) : option N :=
  match s with
  | EmptyString => None
  | _ => digits_val_go 0%N s
  end.

(** [int(s)] for a string: an optional sign and decimal digits (the
    builtin also strips surrounding blanks, which a space-separated CSV
    field never carries). *)
Definition py_int (s : string) : result Z :=
  let signed (neg : bool) (body : string) :=
    match digits_val body with
    | Some n => OK (if neg then - Z.of_N n else Z.of_N n)
    | None => Raise ValueError
    end in
  match s with
  | String "-" body => signed true body
  | String "+" body => signed false body
  | _ => signed false s
  end.

(** ** Input validation *)

Definition validc (c : ascii) : bool :=
  let n := nat_of_ascii c in
  ((31 <? n) && (n <? 127))%nat &&
  negb (bool_decide (n ∈ [34; 39; 60; 62; 96]%nat)).

Fixpoint clean (s : string) : string :=
  match s with
  | EmptyString => EmptyString
  | String x s' => if validc x then String x (clean s') else clean s'
  end.

Definition protocols : list string :=
  ["IP"; "TCP"; "UDP"; "OSPF"; "IS-IS"; "SCTP"; "AH"; "ESP"].

(** ** IP address parsing

    [net_addr] delegates to [netaddr.IPNetwork].  The library is modelled
    for IPv4: an address is a dotted quad of four decimal octets in
    canonical form, a prefix length is a canonical decimal in 0..32, and
    anything else is an [AddrFormatError].  Addresses are 32-bit integers. *)

(** A decimal numeral in canonical form (no leading zero) not above [hi]. *)
Definition canonical_dec (hi : N) (s : string) : option Z :=
  match digits_val s with
  | Some n =>
      if (n <=? hi)%N && String.eqb (pretty n) s then Some (Z.of_N n) else None
  | None => None
  end.

Definition ipv4_of_string (s : string) : option Z :=
  match split_on "." s with
  | [a; b; c; d] =>
      match canonical_dec 255 a, canonical_dec 255 b,
            canonical_dec 255 c, canonical_dec 255 d with
      | Some a, Some b, Some c, Some d =>
          Some (((a * 256 + b) * 256 + c) * 256 + d)
      | _, _, _, _ => None
      end
  | _ => None
  end.

(** [str(IPAddress(x))]. *)
Definition string_of_ipv4 (x : Z) : string :=
  pretty ((x / 16777216) `mod` 256) +:+ "." +:+
  pretty ((x / 65536) `mod` 256) +:+ "." +:+
  pretty ((x / 256) `mod` 256) +:+ "." +:+
  pretty (x `mod` 256).

(** The 32-bit netmask of a prefix length. *)
Definition netmask (n : Z) : Z := Z.shiftl (Z.ones n) (32 - n).

(** [IPNetwork(s)]: the address and the prefix length; a string without
    a slash is a host network of prefix 32. *)
Definition IPNetwork (s : string) : result (Z * Z) :=
  let '(a, p) := split_first "/" s in
  match ipv4_of_string a with
  | None => Raise AddrFormatError
  | Some x =>
      match p with
      | None => OK (x, 32)
      | Some p =>
          match canonical_dec 32 p with
          | Some n => OK (x, n)
          | None => Raise AddrFormatError
          end
      end
  end.

(** [IPNetwork(s).network]. *)
Definition network (ipn : Z * Z) : Z := Z.land (fst ipn) (netmask (snd ipn)).

(** <<
    def net_addr(a, n):
        q = IPNetwork('%s/%d' % (a, n)).network
        return str(q)
    >> *)
Definition net_addr (a : string) (n : Z) : result string :=
  ipn ←! IPNetwork (a +:+ "/" +:+ pretty n);
  OK (string_of_ipv4 (network ipn)).

(** ** Python containers *)

(** [dict(pairs)]: a later pair replaces an earlier one with the same key. *)
Definition py_dict {V : Type} (pairs : list (string * V)) : gmap string V :=
  foldl (λ m kv, <[kv.1 := kv.2]> m) ∅ pairs.

(** [d[k]] on a dictionary with string keys. *)
Definition py_getitem {V : Type} (d : gmap string V) (k : string) : result V :=
  match d !! k with
  | Some v => OK v
  | None => Raise (KeyError k)
  end.

(** The position a list subscript denotes: negative subscripts count from
    the end, anything outside [-len, len) is an [IndexError]. *)
Definition py_pos {A : Type} (l : list A) (i : Z) : result nat :=
  let len := Z.of_nat (length l) in
  if (0 <=? i) && (i <? len) then OK (Z.to_nat i)
  else if (- len <=? i) && (i <? 0) then OK (Z.to_nat (i + len))
  else Raise IndexError.

(** [l[i]]. *)
Definition py_index {A : Type} (l : list A) (i : Z) : result A :=
  n ←! py_pos l i;
  match l !! n with
  | Some x => OK x
  | None => Raise IndexError
  end.

(** [l[i] = x]. *)
Definition py_setitem {A : Type} (l : list A) (i : Z) (x : A) : result (list A) :=
  n ←! py_pos l i;
  OK (<[n := x]> l).

(** [itertools.product(xs, ys)]. *)
Definition product {A B : Type} (xs : list A) (ys : list B) : list (A * B) :=
  x ← xs; y ← ys; [(x, y)].

(** A loop that threads a state and stops at the first exception. *)
Fixpoint foldM {A S : Type} (f : S → A → result S) (l : list A) (s : S) : result S :=
  match l with
  | [] => OK s
  | x :: l' => s' ←! f s x; foldM f l' s'
  end.

(** ** Network objects *)

Module Host.
(** One row of the hosts table; all fields are CSV strings, [routed] is
    the trailing list of network names. *)
Record t : Type := mk {
  hostname : string;
  iface : string;
  ip_addr : string;
  masklen : string;
  local_fw : string;
  network_fw : string;
  mng : string;
  routed : list string
}.

Global Instance eq_dec : EqDecision t.
Proof. solve_decision. Defined.

(** String representation for iptables. *)
Definition ipt (self : t) : string := ip_addr self.
End Host.

Module Network.
Record t : Type := mk {
  name : string;
  ip_addr : string;
  masklen : Z
}.

Global Instance eq_dec : EqDecision t.
Proof. solve_decision. Defined.

(** String representation for iptables. *)
Definition ipt (self : t) : string :=
  ip_addr self +:+ "/" +:+ pretty (masklen self).

(** [Network([name, addr, masklen])]: [update] takes the integer value of
    the prefix field and stores the real network address. *)
Definition init (name addr masklen : string) : result t :=
  masklen ←! py_int masklen;
  real_addr ←! net_addr addr masklen;
  OK (mk name real_addr masklen).
End Network.

(** A rule endpoint object; the wildcard is Python's [None]. *)
Inductive NetObj : Type :=
| OHost (h : Host.t)
| ONet (n : Network.t).

Global Instance NetObj_eq_dec : EqDecision NetObj.
Proof. solve_decision. Defined.

Definition NetObj_ipt (o : NetObj) : string :=
  match o with
  | OHost h => Host.ipt h
  | ONet n => Network.ipt n
  end.

(** The [ip_addr] attribute of either kind of object. *)
Definition NetObj_ip_addr (o : NetObj) : string :=
  match o with
  | OHost h => Host.ip_addr h
  | ONet n => Network.ip_addr n
  end.

(** [other in self] for a [Network]: [__contains__] returns [None], hence
    false, for anything that is neither a host nor a network. *)
Definition Network_contains (self : Network.t) (other : option NetObj) : result bool :=
  match other with
  | Some (OHost h) =>
      a ←! net_addr (Host.ip_addr h) (Network.masklen self);
      OK (String.eqb a (Network.ip_addr self))
  | Some (ONet n) =>
      a ←! net_addr (Network.ip_addr n) (Network.masklen self);
      let addr_ok := String.eqb a (Network.ip_addr self) in
      let net_ok := Network.masklen self <=? Network.masklen n in
      OK (addr_ok && net_ok)
  | None => OK false
  end.

(** [other in self] for a [Host].  Against a network the method formats
    its own [masklen], a string, with [%d] inside [net_addr]. *)
Definition Host_contains (self : Host.t) (other : option NetObj) : result bool :=
  match other with
  | Some (OHost h) => OK (String.eqb (Host.ip_addr h) (Host.ip_addr self))
  | Some (ONet n) => Raise (TypeError "%d format: a number is required, not str")
  | None => OK false
  end.

(** [other in obj], dispatched on the class of [obj]. *)
Definition NetObj_contains (obj : NetObj) (other : option NetObj) : result bool :=
  match obj with
  | OHost h => Host_contains h other
  | ONet n => Network_contains n other
  end.

(** The unnamed network directly connected to the host. *)
Definition mynetwork (self : Host.t) : result Network.t :=
  Network.init "" (Host.ip_addr self) (Host.masklen self).

Module HostGroup.
Record t : Type := mk {
  name : string;
  childs : list string
}.

(** [HostGroup(li)]: the first field is the name, the rest the children. *)
Definition init (li : list string) : result t :=
  match li with
  | [] => Raise IndexError
  | n :: cs => OK (mk n cs)
  end.

(** [_flatten] applied to a name.  [depth] is the number of frames the
    interpreter still allows; at zero the call fails with the
    recursion-limit error. *)
Fixpoint _flatten (depth : nat) (_hbn : gmap string (list string)) (i : string)
  : result (list string) :=
  match depth with
  | O => Raise RecursionLimit
  | S d =>
      match _hbn !! i with
      | Some childs =>
          leaves ←! mapM (_flatten d _hbn) childs;
          OK (concat leaves)
      | None => OK [i]
      end
  end.

(** [_flatten] applied to the group object itself. *)
Definition _flatten_self (depth : nat) (_hbn : gmap string (list string)) (self : t)
  : result (list string) :=
  match depth with
  | O => Raise RecursionLimit
  | S d =>
      leaves ←! mapM (_flatten d _hbn) (childs self);
      OK (concat leaves)
  end.

(** The inner [res] of [flat]. *)
Definition res (host_by_name : gmap string Host.t)
    (net_by_name : gmap string Network.t) (o : string) : result NetObj :=
  match host_by_name !! o with
  | Some h => OK (OHost h)
  | None =>
      match net_by_name !! o with
      | Some n => OK (ONet n)
      | None => Raise (Exception_ (o +:+ " is not in the host or network names"))
      end
  end.

(** Flatten the hierarchy and return [Host] or [Network] instances. *)
Definition flat (depth : nat) (self : t) (host_by_name : gmap string Host.t)
    (net_by_name : gmap string Network.t) (hg_by_name : gmap string (list string))
  : result (list NetObj) :=
  li ←! _flatten_self depth hg_by_name self;
  mapM (res host_by_name net_by_name) li.
End HostGroup.

(** ** Tables *)

Module Rule.
(** A row of the rules table ([Bunch] of strings). *)
Record t : Type := mk {
  enabled : string;
  name : string;
  src : string;
  src_serv : string;
  dst : string;
  dst_serv : string;
  action : string;
  log_level : string;
  desc : string
}.

Global Instance eq_dec : EqDecision t.
Proof. solve_decision. Defined.
End Rule.

Module Service.
Record t : Type := mk {
  name : string;
  proto : string;
  ports : string
}.
End Service.

(** Truth value of an optional string: [None] and the empty string are false. *)
Definition truthy (o : option string) : bool :=
  match o with
  | Some s => negb (String.eqb s "")
  | None => false
  end.

(** ** Compiled tuples and emitted lines *)

(** One element of [compiled]:
    [(proto, src, sports, dst, dports, log_val, rule.name, rule.action)]. *)
Record Compiled : Type := mkCompiled {
  c_proto : string;
  c_src : option NetObj;
  c_sports : string;
  c_dst : option NetObj;
  c_dports : string;
  c_log_val : Z;
  c_name : string;
  c_action : string
}.

(** The three chains of one host in the compiled dictionary. *)
Record Chains : Type := mkChains {
  INPUT : list string;
  OUTPUT : list string;
  FORWARD : list string
}.

Definition stateful_accept : string :=
  "-m state --state RELATED,ESTABLISHED -j ACCEPT".

(** [" -s %s" % src.ipt() if src else ''] *)
Definition _src (c : Compiled) : string :=
  match c_src c with
  | Some o => " -s " +:+ NetObj_ipt o
  | None => ""
  end.

Definition _dst (c : Compiled) : string :=
  match c_dst c with
  | Some o => " -d " +:+ NetObj_ipt o
  | None => ""
  end.

(** The matcher fragment shared by every line of a tuple:
    [proto, _src, sports, _dst, dports] under ["%s%s%s%s%s"]. *)
Definition matcher (c : Compiled) : string :=
  c_proto c +:+ _src c +:+ c_sports c +:+ _dst c +:+ c_dports c.

(** ["%s%s%s%s%s -j %s"] *)
Definition action_line (c : Compiled) : string :=
  matcher c +:+ " -j " +:+ c_action c.

(** ["%s%s%s%s%s -j LOG --log-level %d --log-prefix %s"] *)
Definition log_line (c : Compiled) : string :=
  matcher c +:+ " -j LOG --log-level " +:+ pretty (c_log_val c) +:+
  " --log-prefix " +:+ c_name c.

(** ["-i %s %s%s%s%s%s -j LOG --log-level %d --log-prefix %s"] *)
Definition input_log_line (h : Host.t) (c : Compiled) : string :=
  "-i " +:+ Host.iface h +:+ " " +:+ log_line c.

(** ** Values compared by [in] on a tuple *)

Inductive pyval : Type :=
| VStr (s : string)
| VInt (z : Z)
| VObj (o : NetObj)
| VNone.

(** [a == b].  Instances of [NetworkObj] define no [__eq__]: an instance
    is never equal to a string, an integer or [None]; two instances are
    compared by identity, taken here as equality of their fields. *)
Definition py_eq (a b : pyval) : bool :=
  match a, b with
  | VStr x, VStr y => String.eqb x y
  | VInt x, VInt y => x =? y
  | VObj x, VObj y => bool_decide (x = y)
  | VNone, VNone => true
  | _, _ => false
  end.

Definition pyval_of_endpoint (e : option NetObj) : pyval :=
  match e with
  | Some o => VObj o
  | None => VNone
  end.

(** [x in t] for a tuple [t]. *)
Definition tuple_contains (t : list pyval) (x : pyval) : bool :=
  existsb (λ el, py_eq el x) t.

(** An entry of the [net] dictionary: the tuple [(n.ip_addr, n.masklen)]. *)
Definition net_tuple (rnet : string * Z) : list pyval :=
  [VStr rnet.1; VInt rnet.2].

(** ** FireSet *)

(** The live state fetched from one host: its filter table and, per
    interface, the IPv4 address with prefix and the optional IPv6 address. *)
Record HostConf : Type := mkHostConf {
  conf_filter : list string;
  conf_ip_a_s : gmap string (string * option string)
}.

Module FireSet.
(** The tables ([_list] of each [SmartTable]), the text [git status]
    prints for the repository, and the attributes [_remote_confs] and
    [rd] that [deploy] sets. *)
Record t : Type := mk {
  rules : list Rule.t;
  hosts : list Host.t;
  hostgroups : list HostGroup.t;
  services : list Service.t;
  networks : list Network.t;
  git_status : string;
  _remote_confs : option (gmap string HostConf);
  rd : option (gmap string (gmap string (list string)))
}.

(** [GitFireSet.save_needed]: true if a commit is required. *)
Definition save_needed (self : t) : result bool :=
  let o := git_status self in
  if str_in "nothing to commit " o then OK false
  else if str_in "# On branch master" o then OK true
  else Raise (Alert "Git status output").

(** The [for rnet in routed_nets] loop of [_oo_forwarded]; [rnet] is an
    entry of the [net] dictionary, a tuple, and [in] is tuple membership. *)
Fixpoint routed_loop (src dst : option NetObj) (routed_nets : list (string * Z)) : bool :=
  match routed_nets with
  | [] => false
  | rnet :: rest =>
      if tuple_contains (net_tuple rnet) (pyval_of_endpoint src) &&
         negb (tuple_contains (net_tuple rnet) (pyval_of_endpoint dst))
      then true
      else routed_loop src dst rest
  end.

(** Tell if a src network or ipaddr has to be routed through the local
    host. *)
Definition _oo_forwarded (src dst : option NetObj) (me : Host.t)
    (routed_nets : list (string * Z)) (other_ifaces : list Host.t) : result bool :=
  match src with
  | None => OK true
  | Some s =>
      if String.eqb (Host.ip_addr me) (NetObj_ip_addr s) then OK false
      else
        mynet ←! mynetwork me;
        direct ←! Network_contains mynet src;
        if direct then
          mynet' ←! mynetwork me;
          same ←! Network_contains mynet' dst;
          if same then OK false else OK true
        else OK (routed_loop src dst routed_nets)
  end.

(** *** Resolution dictionaries of [compile_rules] *)

Definition host_by_name_col_iface (self : t) : gmap string Host.t :=
  py_dict ((λ h, (Host.hostname h +:+ ":" +:+ Host.iface h, h)) <$> hosts self).

Definition net_by_name (self : t) : gmap string Network.t :=
  py_dict ((λ n, (Network.name n, n)) <$> networks self).

Definition hg_by_name (self : t) : gmap string (list string) :=
  py_dict ((λ hg, (HostGroup.name hg, HostGroup.childs hg)) <$> hostgroups self).

(** [net]: network name to addressing. *)
Definition net (self : t) : gmap string (string * Z) :=
  py_dict ((λ n, (Network.name n, (Network.ip_addr n, Network.masklen n)))
             <$> networks self).

(** [proto_port], with the special case for any. *)
Definition proto_port (self : t) : gmap string (option string * string) :=
  <["*" := (None, "")]>
    (py_dict ((λ sr, (Service.name sr, (Some (Service.proto sr), Service.ports sr)))
                <$> services self)).

Definition flat_hg (depth : nat) (self : t) : result (gmap string (list NetObj)) :=
  pairs ←! mapM (λ hg,
      l ←! HostGroup.flat depth hg (host_by_name_col_iface self)
             (net_by_name self) (hg_by_name self);
      OK (HostGroup.name hg, l)) (hostgroups self);
  OK (py_dict pairs).

(** Resolve flattened hostgroups, hosts and networks by name; [None]
    stands for the wildcard. *)
Definition res (self : t) (flat_hg : gmap string (list NetObj)) (n : string)
  : result (list (option NetObj)) :=
  match host_by_name_col_iface self !! n with
  | Some h => OK [Some (OHost h)]
  | None =>
      match net_by_name self !! n with
      | Some nw => OK [Some (ONet nw)]
      | None =>
          match flat_hg !! n with
          | Some l => OK (Some <$> l)
          | None =>
              if String.eqb n "*" then OK [None]
              else Raise (Alert ("Item " +:+ n +:+ " is not defined."))
          end
      end
  end.

Definition known_proto (p : option string) : bool :=
  match p with
  | Some s => bool_decide (s ∈ protocols)
  | None => true
  end.

(** ["%s --sport %s" % (ms, sports)] when [sports] is not empty, and the
    same for [--dport]. *)
Definition port_match (flag ports : string) : string :=
  if String.eqb ports "" then ""
  else (if str_in "," ports then " -m multiport" else "") +:+
       " " +:+ flag +:+ " " +:+ ports.

(** [for x in rule.name: assert validc(x), ...]: the message of the
    assertion has one placeholder for two arguments, so building it
    fails with [TypeError]. *)
Fixpoint check_name (s : string) : result unit :=
  match s with
  | EmptyString => OK tt
  | String x s' =>
      if validc x then check_name s'
      else Raise (TypeError "not all arguments converted during string formatting")
  end.

(** The body of the first loop over [self.rules]: the tuples one rule
    adds to [compiled]. *)
Definition compile_rule (self : t) (flat_hg : gmap string (list NetObj))
    (rule : Rule.t) : result (list Compiled) :=
  if String.eqb (Rule.enabled rule) "0" then OK []
  else
    _ ←! py_assert (bool_decide (Rule.action rule ∈ ["ACCEPT"; "DROP"]))
           "The Action field must be ACCEPT or DROP";
    srcs ←! res self flat_hg (Rule.src rule);
    dsts ←! res self flat_hg (Rule.dst rule);
    '(sproto, sports) ←! py_getitem (proto_port self) (Rule.src_serv rule);
    '(dproto, dports) ←! py_getitem (proto_port self) (Rule.dst_serv rule);
    _ ←! py_assert (known_proto sproto) "Unknown source protocol";
    _ ←! py_assert (known_proto dproto) "Unknown dest protocol";
    if truthy sproto && truthy dproto && negb (bool_decide (sproto = dproto))
    then Raise (Alert "Source and destination protocol must be the same")
    else
      let proto :=
        if truthy dproto then " -p " +:+ lower (default "" dproto)
        else if truthy sproto then " -p " +:+ lower (default "" sproto)
        else "" in
      let sports := port_match "--sport" sports in
      let dports := port_match "--dport" dports in
      _ ←! check_name (Rule.name rule);
      log_val ←! match py_int (Rule.log_level rule) with
                 | OK v => OK v
                 | Raise ValueError =>
                     Raise (Alert "The logging field must be an integer.")
                 | Raise e => Raise e
                 end;
      OK ((λ sd, mkCompiled proto sd.1 sports sd.2 dports log_val
                   (Rule.name rule) (Rule.action rule))
            <$> product srcs dsts).

(** *** Splicing *)

(** The entry created for a hostname the first time one of its rows is
    met ("Insert first rules"). *)
Definition first_rules (h : Host.t) : Chains :=
  mkChains [stateful_accept] [stateful_accept]
    (if String.eqb (Host.network_fw h) "1" then [stateful_accept]
     else ["-j DROP"]).

Definition insert_first_rules (h : Host.t) (rd : gmap string Chains)
  : gmap string Chains :=
  match rd !! Host.hostname h with
  | Some _ => rd
  | None => <[Host.hostname h := first_rules h]> rd
  end.

Definition append_INPUT (lines : list string) (ch : Chains) : Chains :=
  mkChains (INPUT ch ++ lines) (OUTPUT ch) (FORWARD ch).
Definition append_OUTPUT (lines : list string) (ch : Chains) : Chains :=
  mkChains (INPUT ch) (OUTPUT ch ++ lines) (FORWARD ch).
Definition append_FORWARD (lines : list string) (ch : Chains) : Chains :=
  mkChains (INPUT ch) (OUTPUT ch) (FORWARD ch ++ lines).

(** [src and dst and src.ipt() == dst.ipt()] *)
Definition same_ipt (src dst : option NetObj) : bool :=
  match src, dst with
  | Some s, Some d => String.eqb (NetObj_ipt s) (NetObj_ipt d)
  | _, _ => false
  end.

(** [e and h in e or not e] *)
Definition host_in (h : Host.t) (e : option NetObj) : result bool :=
  match e with
  | Some o => NetObj_contains o (Some (OHost h))
  | None => OK true
  end.

(** The body of [for h in self.hosts], for one compiled tuple. *)
Definition splice_host (self : t) (c : Compiled) (rd : gmap string Chains)
    (h : Host.t) : result (gmap string Chains) :=
  let hn := Host.hostname h in
  let rd := insert_first_rules h rd in
  if same_ipt (c_src c) (c_dst c) then OK rd
  else
    (* INPUT rules: where the host is in the destination *)
    to_me ←! host_in h (c_dst c);
    let rd :=
      if to_me then
        alter (append_INPUT
                 ((if c_log_val c =? 0 then [] else [input_log_line h c])
                    ++ [action_line c])) hn rd
      else rd in
    (* OUTPUT rules: where the host is in the source *)
    from_me ←! host_in h (c_src c);
    let rd :=
      if from_me then
        alter (append_OUTPUT
                 ((if c_log_val c =? 0 then [] else [log_line c])
                    ++ [action_line c])) hn rd
      else rd in
    (* FORWARD rules; [network_fw] is a string, so of ['0', 0, False]
       only the first can match *)
    if String.eqb (Host.network_fw h) "0" then OK rd
    else
      resolved_routed ←! mapM (py_getitem (net self)) (Host.routed h);
      nets ←! mapM (λ yw : string * Z, IPNetwork (yw.1 +:+ "/" +:+ pretty yw.2))
                resolved_routed;
      let other_ifaces :=
        filter (λ k, Host.hostname k = Host.hostname h ∧ Host.iface k ≠ Host.iface h)
          (hosts self) in
      forw ←! _oo_forwarded (c_src c) (c_dst c) h resolved_routed other_ifaces;
      if forw then
        OK (alter (append_FORWARD [log_line c; action_line c]) hn rd)
      else OK rd.

(** The body of [for ... in compiled]. *)
Definition splice_tuple (self : t) (rd : gmap string Chains) (c : Compiled)
  : result (gmap string Chains) :=
  foldM (splice_host self c) (hosts self) rd.

(** The tuples of all rules, in rule order. *)
Definition compiled (self : t) (flat_hg : gmap string (list NetObj))
  : result (list Compiled) :=
  cs ←! mapM (compile_rule self flat_hg) (rules self);
  OK (concat cs).

(** Compile iptables rules to be deployed in a dict
    [{hostname: {chain: [rules...]}}].  [depth] is the recursion depth
    left to the interpreter when host groups are flattened. *)
Definition compile_rules (depth : nat) (self : t) : result (gmap string Chains) :=
  dirty ←! save_needed self;
  _ ←! py_assert (negb dirty) "Configuration must be saved before deployment.";
  _ ←! mapM (λ rule,
          py_assert (bool_decide (Rule.enabled rule ∈ ["1"; "0"]))
            "First field must be 1 or 0") (rules self);
  fhg ←! flat_hg depth self;
  cs ←! compiled self fhg;
  foldM (splice_tuple self) cs ∅.

Definition compile (depth : nat) (self : t) : result (gmap string Chains) :=
  compile_rules depth self.

(** *** The per-interface dictionary *)

(** An element of the [hosts] argument of [compile_dict]: a [Host]
    instance of the hosts table, or the eight-field row
    [hostname, iface, ipa, masklen, locfw, netfw, mng, routed] that
    [load_hosts_csv] builds. *)
Inductive HostRow : Type :=
| RowObj (h : Host.t)
| RowFields (hostname iface ipa masklen locfw netfw mng : string)
            (routed : list string).

(** The [rset] argument: the dictionary [compile] returns, or a list of
    rule lines. *)
Inductive RSet : Type :=
| RSetDict (d : gmap string Chains)
| RSetList (l : list string).

(** What [for r in rset] yields: the keys of a dictionary (in the order
    of [map_to_list]; Python fixes none), the elements of a list. *)
Definition rset_iter (rset : RSet) : list string :=
  match rset with
  | RSetDict d => (map_to_list d).*1
  | RSetList l => l
  end.

Definition rset_truthy (rset : option RSet) : bool :=
  match rset with
  | Some r => negb (bool_decide (rset_iter r = []))
  | None => false
  end.

(** The body of the loop of [compile_dict].  Unpacking a row into eight
    names iterates over it, and a [Host] instance is not iterable. *)
Definition compile_dict_row (rset : RSet)
    (rd : gmap string (gmap string (list string))) (row : HostRow)
  : result (gmap string (gmap string (list string))) :=
  match row with
  | RowObj _ => Raise (TypeError "'Host' object is not iterable")
  | RowFields hostname iface ipa _ _ _ _ _ =>
      let myrules := List.filter (λ r, str_in ipa r) (rset_iter rset) in
      let ifaces := default ∅ (rd !! hostname) in
      let old := default [] (ifaces !! iface) in
      OK (<[hostname := <[iface := old ++ myrules]> ifaces]> rd)
  end.

(** Generate set of rules specific for each host:
    [rd = {hostname: {iface: [rules, ]}, ...}]. *)
Definition compile_dict (depth : nat) (self : t)
    (hosts : option (list HostRow)) (rset : option RSet)
  : result (gmap string (gmap string (list string))) :=
  dirty ←! save_needed self;
  _ ←! py_assert (negb dirty) "Configuration must be saved before deployment.";
  let hosts :=
    match hosts with
    | Some (r :: rs) => r :: rs
    | _ => RowObj <$> FireSet.hosts self
    end in
  rset ←! match rset with
          | Some r =>
              if rset_truthy rset then OK r
              else d ←! compile depth self; OK (RSetDict d)
          | None => d ←! compile depth self; OK (RSetDict d)
          end;
  foldM (compile_dict_row rset) hosts ∅.

(** *** Deployment *)

(** What a method does to the outside: requests to the fleet client. *)
Inductive event : Type :=
| EvGetConfs (d : gmap string (list string))
| EvDeliver (rd : gmap string (gmap string (list string)))
| EvApply.

(** A method that may update the attributes of [self], talk to hosts
    and raise: it returns its result, the new [self] and the requests
    made, in order. *)
Definition Act (A : Type) : Type := t → result A * t * list event.

Definition act_bind {A B : Type} (m : Act A) (k : A → Act B) : Act B :=
  λ self,
    match m self with
    | (OK a, self', tr) =>
        let '(r, self'', tr') := k a self' in (r, self'', tr ++ tr')
    | (Raise e, self', tr) => (Raise e, self', tr)
    end.

(** A computation that only reads [self]. *)
Definition act_read {A : Type} (f : t → result A) : Act A :=
  λ self, (f self, self, []).

Definition set_remote_confs (v : option (gmap string HostConf)) : Act unit :=
  λ self,
    (OK tt,
     mk (rules self) (hosts self) (hostgroups self) (services self)
        (networks self) (git_status self) v (rd self),
     []).

Definition set_rd (v : gmap string (gmap string (list string))) : Act unit :=
  λ self,
    (OK tt,
     mk (rules self) (hosts self) (hostgroups self) (services self)
        (networks self) (git_status self) (_remote_confs self) (Some v),
     []).

Section Fleet.
(** [flssh.SSHConnector] is not part of this module; its three calls
    are parameters.  Each call is recorded as an [event]. *)
Variable sx_get_confs :
  gmap string (list string) → result (gmap string HostConf).
Variable sx_deliver_confs :
  gmap string (gmap string (list string)) → result unit.
Variable sx_apply_remote_confs : result unit.

Definition get_confs (d : gmap string (list string))
  : Act (gmap string HostConf) :=
  λ self, (sx_get_confs d, self, [EvGetConfs d]).

Definition deliver_confs (rd : gmap string (gmap string (list string)))
  : Act unit :=
  λ self, (sx_deliver_confs rd, self, [EvDeliver rd]).

Definition apply_remote_confs : Act unit :=
  λ self, (sx_apply_remote_confs, self, [EvApply]).

(** [FireSet._get_confs].  The first loop stores into [d[n]] before
    any assignment to the local [n], so a non-empty hosts table ends
    it at once; with no host, [d] is empty, and the subscript [0] on
    the fetched dictionary, whose keys are hostnames, finds no key. *)
Definition _get_confs (keep_sessions : bool) : Act unit :=
  act_bind (set_remote_confs None) (λ _,
  act_bind (act_read (λ self,
              match hosts self with
              | _ :: _ => Raise (UnboundLocalError "n")
              | [] => OK (∅ : gmap string (list string))
              end)) (λ d,
  act_bind (get_confs d) (λ confs,
  act_bind (set_remote_confs (Some confs)) (λ _,
  act_read (λ _, Raise (KeyError "0")))))).

(** Ensure that the interfaces configured on the hosts match the
    contents of the host table.  The two last alerts format their
    message with the names [iface] and [hostname], which are not
    defined in the method. *)
Definition _check_ifaces (self : t) : result unit :=
  match _remote_confs self with
  | None => Raise (AssertionError "")
  | Some confs =>
      _ ←! mapM (λ h,
             match confs !! Host.hostname h with
             | None => Raise (Alert ("Host " +:+ Host.hostname h +:+ " not available."))
             | Some q =>
                 match conf_ip_a_s q !! Host.iface h with
                 | None => Raise (NameError "iface")
                 | Some (ip_addr_v4, ip_addr_v6) =>
                     if tuple_contains
                          [from_option VStr VNone ip_addr_v6;
                           VStr (split_first "/" ip_addr_v4).1]
                          (VStr (Host.ip_addr h))
                     then OK tt
                     else Raise (NameError "iface")
                 end
             end) (hosts self);
      OK tt
  end.

(** Check and then deploy the configuration to the firewalls. *)
Definition deploy (depth : nat) : Act unit :=
  act_bind (act_read (λ self,
              dirty ←! save_needed self;
              py_assert (negb dirty)
                "Configuration must be saved before deployment.")) (λ _,
  act_bind (act_read (compile depth)) (λ comp_rules,
  act_bind (_get_confs true) (λ sx,
  act_bind (act_read _check_ifaces) (λ _,
  act_bind (act_read (λ self, compile_dict depth self None None)) (λ rd,
  act_bind (set_rd rd) (λ _,
  act_bind (deliver_confs rd) (λ _,
  apply_remote_confs))))))).
End Fleet.
End FireSet.

(** ** The rules table *)

(** [try: body except Exception: pass] around a body that returns the
    updated object: on any exception the object is as the body left it
    when raising, here untouched, and the method returns normally. *)
Definition try_pass {S : Type} (self : S) (body : result S) : result S :=
  match body with
  | OK s => OK s
  | Raise _ => OK self
  end.

Module Rules.
(** [_list], and the rows last written to [rules.csv] by [save]; writing
    the file is taken to succeed. *)
Record t : Type := mk {
  _list : list Rule.t;
  csv : list Rule.t
}.

Definition save (self : t) : t := mk (_list self) (_list self).

(** [rules[rid], rules[rid - 1] = rules[rid - 1], rules[rid]]: both
    right-hand subscripts are read, then the two items are stored. *)
Definition swap (rules : list Rule.t) (i j : Z) : result (list Rule.t) :=
  a ←! py_index rules j;
  b ←! py_index rules i;
  rules ←! py_setitem rules i a;
  py_setitem rules j b.

Definition moveup (self : t) (rid : Z) : result t :=
  try_pass self
    (rules ←! swap (_list self) rid (rid - 1);
     OK (save (mk rules (csv self)))).

Definition movedown (self : t) (rid : Z) : result t :=
  try_pass self
    (rules ←! swap (_list self) rid (rid + 1);
     OK (save (mk rules (csv self)))).
End Rules.

(** * Vocabulary of the properties *)

(** The character [c] occurs in [s]. *)
Fixpoint has_char (c : ascii) (s : string) : bool :=
  match s with
  | EmptyString => false
  | String a s' => Ascii.eqb a c || has_char c s'
  end.

(** Every octet prints to a canonical numeral without dot or slash. *)
Definition octet_ok (n : nat) : bool :=
  let s := pretty (Z.of_nat n) in
  bool_decide (canonical_dec 255 s = Some (Z.of_nat n)) &&
  negb (has_char "." s) && negb (has_char "/" s).

(** Every prefix length prints to a canonical numeral. *)
Definition prefix_ok (n : nat) : bool :=
  bool_decide (canonical_dec 32 (pretty (Z.of_nat n)) = Some (Z.of_nat n)).

(** A well-formed IPv4 address string: the rendering of a 32-bit value. *)
Definition ipv4_string (s : string) (x : Z) : Prop :=
  0 ≤ x < 4294967296 ∧ s = string_of_ipv4 x.

(** A network of the model as [Network.init] builds it: a canonical
    address and a prefix length in range. *)
Definition Network_wf (N : Network.t) (y : Z) : Prop :=
  ipv4_string (Network.ip_addr N) y ∧ 0 ≤ Network.masklen N ≤ 32.






(** The error a dirty repository produces: the failed assertion that
    opens [deploy]. *)
Definition SaveRequired : exn :=
  AssertionError "Configuration must be saved before deployment.".

(** The lines a tuple adds for one row, per chain. *)
Record Lines : Type := mkLines {
  to_INPUT : list string;
  to_OUTPUT : list string;
  to_FORWARD : list string
}.

(** The three [append]s of the loop body at once. *)
Definition add_lines (e : Lines) (ch : Chains) : Chains :=
  mkChains (INPUT ch ++ to_INPUT e) (OUTPUT ch ++ to_OUTPUT e)
    (FORWARD ch ++ to_FORWARD e).

(** The forwarding decision of the loop body for the row [h]. *)
Definition forwards (self : FireSet.t) (c : Compiled) (h : Host.t) : result bool :=
  if String.eqb (Host.network_fw h) "0" then OK false
  else
    resolved_routed ←! mapM (py_getitem (FireSet.net self)) (Host.routed h);
    nets ←! mapM (λ yw : string * Z, IPNetwork (yw.1 +:+ "/" +:+ pretty yw.2))
              resolved_routed;
    FireSet._oo_forwarded (c_src c) (c_dst c) h resolved_routed
      (filter (λ k, Host.hostname k = Host.hostname h
                    ∧ Host.iface k ≠ Host.iface h) (FireSet.hosts self)).

(** The lines the loop body appends for the row [h]. *)
Definition emitted (self : FireSet.t) (c : Compiled) (h : Host.t) : result Lines :=
  if FireSet.same_ipt (c_src c) (c_dst c) then OK (mkLines [] [] [])
  else
    to_me ←! FireSet.host_in h (c_dst c);
    from_me ←! FireSet.host_in h (c_src c);
    forw ←! forwards self c h;
    OK (mkLines
          (if to_me then
             (if c_log_val c =? 0 then [] else [input_log_line h c])
               ++ [action_line c]
           else [])
          (if from_me then
             (if c_log_val c =? 0 then [] else [log_line c]) ++ [action_line c]
           else [])
          (if forw then [log_line c; action_line c] else [])).

(** The rows of the hosts table that carry one hostname. *)
Definition rows_of (hn : string) (hs : list Host.t) : list Host.t :=
  filter (λ h, Host.hostname h = hn) hs.

(** The chains a hostname starts a tuple with: its entry, or the first
    rules of its first row. *)
Definition start (rd : gmap string Chains) (hn : string) (hs : list Host.t)
  : option Chains :=
  match rd !! hn with
  | Some ch => Some ch
  | None => FireSet.first_rules <$> head (rows_of hn hs)
  end.

(** The lines of several rows appended in turn. *)
Definition add_all (es : list Lines) (ch : Chains) : Chains :=
  foldl (λ ch e, add_lines e ch) ch es.

(** The lines one row receives on INPUT when the destination is the
    wildcard, and on OUTPUT when the source is. *)
Definition input_lines (c : Compiled) (h : Host.t) : list string :=
  (if c_log_val c =? 0 then [] else [input_log_line h c]) ++ [action_line c].

Definition output_lines (c : Compiled) (h : Host.t) : list string :=
  (if c_log_val c =? 0 then [] else [log_line c]) ++ [action_line c].


(** * Scenarios *)


(** A group of two host interfaces. *)
Definition admins_hbn : gmap string (list string) :=
  py_dict [("admins", ["alice:eth0"; "bob:eth0"])].


(** The group object and its two hosts. *)
Definition admins : HostGroup.t := HostGroup.mk "admins" ["alice:eth0"; "bob:eth0"].
Definition alice : Host.t := Host.mk "alice" "eth0" "10.0.0.2" "24" "1" "0" "1" [].
Definition bob : Host.t := Host.mk "bob" "eth0" "10.0.0.3" "24" "1" "0" "1" [].

(** Three rows of a rules table. *)
Definition rule_a : Rule.t := Rule.mk "1" "a" "*" "*" "*" "*" "ACCEPT" "0" "".
Definition rule_b : Rule.t := Rule.mk "1" "b" "*" "*" "*" "*" "DROP" "0" "".
Definition rule_c : Rule.t := Rule.mk "0" "c" "*" "*" "*" "*" "DROP" "0" "".

(** The scenario of the specification: a firewall and a web server, a
    rule that accepts ping from the internet. *)
Definition fw : Host.t := Host.mk "fw" "eth0" "1.2.3.1" "24" "1" "1" "1" [].
Definition webserver : Host.t :=
  Host.mk "webserver" "eth0" "1.2.3.10" "24" "1" "0" "1" [].
Definition internet : Network.t := Network.mk "internet" "0.0.0.0" 0.
Definition lan : Network.t := Network.mk "lan" "1.2.3.0" 24.

(** What [git status] prints on a clean and on a changed repository. *)
Definition clean_status : string := "nothing to commit (working directory clean)".
Definition dirty_status : string := "# On branch master".

(** A model over the two networks and the service [icmp]. *)
Definition fireset (rules : list Rule.t) (hosts : list Host.t)
    (hostgroups : list HostGroup.t) (status : string) : FireSet.t :=
  FireSet.mk rules hosts hostgroups [Service.mk "icmp" "IP" ""]
    [internet; lan] status None None.

(** The rule of the scenario, with its first field left open. *)
Definition allow_ping (enabled : string) : Rule.t :=
  Rule.mk enabled "allow_ping" "*" "*" "webserver:eth0" "icmp" "ACCEPT" "0" "".

(** A firewall that routes the network [dmz], a mail host inside it. *)
Definition dmz : Network.t := Network.mk "dmz" "10.0.0.0" 24.
Definition router : Host.t :=
  Host.mk "fw" "eth0" "1.2.3.1" "24" "1" "1" "1" ["dmz"].
Definition mail : Host.t :=
  Host.mk "mail" "eth0" "10.0.0.5" "24" "1" "0" "1" [].

(** One rule, from the mail host to the web server. *)
Definition routed_fireset : FireSet.t :=
  FireSet.mk
    [Rule.mk "1" "mail_to_web" "mail:eth0" "*" "webserver:eth0" "*" "ACCEPT" "0" ""]
    [router; webserver; mail] [] [] [internet; lan; dmz] clean_status None None.

(** The rows of the two-host scenario in the eight-field form. *)
Definition legacy_rows : list FireSet.HostRow :=
  [FireSet.RowFields "fw" "eth0" "1.2.3.1" "24" "1" "1" "1" [];
   FireSet.RowFields "webserver" "eth0" "1.2.3.10" "24" "1" "0" "1" []].

(** The tuples of a rule from [lan] to [lan] and of a rule from [mail] to
    [webserver]. *)
Definition lan_to_lan : Compiled :=
  mkCompiled "" (Some (ONet lan)) "" (Some (ONet lan)) "" 0 "intra_lan" "ACCEPT".
Definition mail_to_web : Compiled :=
  mkCompiled "" (Some (OHost mail)) "" (Some (OHost webserver)) "" 0
    "mail_to_web" "ACCEPT".

(** A gateway with two interface rows, and the tuple of a rule
    [* * * * DROP] logged at level 4. *)
Definition gw0 : Host.t := Host.mk "gw" "eth0" "1.2.3.1" "24" "1" "0" "1" [].
Definition gw1 : Host.t := Host.mk "gw" "eth1" "10.0.0.1" "24" "1" "0" "0" [].

(** The gateway and the web server under that rule. *)
Definition gw_fireset : FireSet.t :=
  FireSet.mk [Rule.mk "1" "drop_all" "*" "*" "*" "*" "DROP" "4" ""]
    [gw0; gw1; webserver] [] [] [internet; lan] clean_status None None.

(** The tuple [compile_rule] builds for it. *)
Definition drop_all : Compiled := mkCompiled "" None "" None "" 4 "drop_all" "DROP".

(** The same tuple with logging off. *)
Definition drop_quiet : Compiled := mkCompiled "" None "" None "" 0 "drop_all" "DROP".

(** Two group dictionaries that list, for every name, the same children
    up to order. *)
Definition same_children (_hbn _hbn' : gmap string (list string)) : Prop :=
  ∀ i, option_Forall2 (≡ₚ) (_hbn !! i) (_hbn' !! i).

(** The model with the rules that are not enabled taken out of the table. *)
Definition without_disabled (self : FireSet.t) : FireSet.t :=
  FireSet.mk (filter (λ r, Rule.enabled r ≠ "0") (FireSet.rules self))
    (FireSet.hosts self) (FireSet.hostgroups self) (FireSet.services self)
    (FireSet.networks self) (FireSet.git_status self)
    (FireSet._remote_confs self) (FireSet.rd self).

(** [rd[hostname][iface]] in the nested dictionary of [compile_dict]. *)
Definition lookup2 (rd : gmap string (gmap string (list string)))
    (hostname iface : string) : option (list string) :=
  match rd !! hostname with
  | Some ifaces => ifaces !! iface
  | None => None
  end.

(** The row is an eight-field row for [hostname] and [iface]. *)
Definition row_for (hostname iface : string) (row : FireSet.HostRow) : bool :=
  match row with
  | FireSet.RowFields hn i _ _ _ _ _ _ =>
      bool_decide (hn = hostname) && bool_decide (i = iface)
  | FireSet.RowObj _ => false
  end.

Definition row_is_fields (row : FireSet.HostRow) : bool :=
  match row with
  | FireSet.RowFields _ _ _ _ _ _ _ _ => true
  | FireSet.RowObj _ => false
  end.

(** The lines of [l] that contain the address of a row for [hostname]
    and [iface], row after row. *)
Definition lines_for (hostname iface : string) (rows : list FireSet.HostRow)
    (l : list string) : list string :=
  concat ((λ row,
             match row with
             | FireSet.RowFields _ _ ipa _ _ _ _ _ =>
                 if row_for hostname iface row
                 then List.filter (λ r, str_in ipa r) l else []
             | FireSet.RowObj _ => []
             end) <$> rows).

(** * Properties *)

(** ** The result monad *)

Lemma bind_OK {A B : Type} (r : result A) (k : A → result B) (b : B) :
  bind r k = OK b ↔ ∃ a, r = OK a ∧ k a = OK b.
Proof.
  destruct r as [a|e]; simpl; split.
  - eauto.
  - by intros (a' & [= <-] & ?).
  - discriminate.
  - by intros (a' & ? & _).
Qed.


Lemma py_assert_OK (c : bool) (msg : string) (u : unit) :
  py_assert c msg = OK u ↔ c = true.
Proof. destruct c, u; simpl; split; (done || discriminate). Qed.

(** ** Strings and addresses *)

Lemma split_first_app (c : ascii) (s t : string) :
  has_char c s = false →
  split_first c (s +:+ String c t) = (s, Some t).
Proof.
  induction s as [|a s IH]; simpl; intros Hs.
  - by rewrite Ascii.eqb_refl.
  - apply orb_false_iff in Hs as [-> Hs]. by rewrite IH.
Qed.

Lemma split_on_nochar (c : ascii) (s : string) :
  has_char c s = false → split_on c s = [s].
Proof.
  induction s as [|a s IH]; simpl; intros Hs; [done|].
  apply orb_false_iff in Hs as [-> Hs]. by rewrite IH.
Qed.

Lemma split_on_app (c : ascii) (s t : string) :
  has_char c s = false →
  split_on c (s +:+ String c t) = s :: split_on c t.
Proof.
  induction s as [|a s IH]; simpl; intros Hs.
  - by rewrite Ascii.eqb_refl.
  - apply orb_false_iff in Hs as [-> Hs]. by rewrite IH.
Qed.

Lemma split_on_dot (s t : string) :
  has_char "." s = false →
  split_on "." (s +:+ "." +:+ t) = s :: split_on "." t.
Proof. apply (split_on_app "."). Qed.

Lemma has_char_app (c : ascii) (s t : string) :
  has_char c (s +:+ t) = has_char c s || has_char c t.
Proof.
  induction s as [|a s IH]; simpl; [done|]. by rewrite IH, orb_assoc.
Qed.

Lemma octets_ok : forallb octet_ok (seq 0 256) = true.
Proof. vm_compute. reflexivity. Qed.

Lemma octet_pretty (o : Z) :
  0 ≤ o < 256 →
  canonical_dec 255 (pretty o) = Some o ∧
  has_char "." (pretty o) = false ∧ has_char "/" (pretty o) = false.
Proof.
  intros Ho.
  pose proof (proj1 (forallb_forall _ _) octets_ok (Z.to_nat o)) as H.
  ospecialize (H _). { apply in_seq. lia. }
  unfold octet_ok in H. rewrite Z2Nat.id in H by lia.
  apply andb_true_iff in H as [H H3]. apply andb_true_iff in H as [H1 H2].
  apply bool_decide_eq_true in H1.
  apply negb_true_iff in H2. apply negb_true_iff in H3. done.
Qed.

Lemma prefixes_ok : forallb prefix_ok (seq 0 33) = true.
Proof. vm_compute. reflexivity. Qed.

Lemma prefix_pretty (n : Z) :
  0 ≤ n ≤ 32 → canonical_dec 32 (pretty n) = Some n.
Proof.
  intros Hn.
  pose proof (proj1 (forallb_forall _ _) prefixes_ok (Z.to_nat n)) as H.
  ospecialize (H _). { apply in_seq. lia. }
  unfold prefix_ok in H. rewrite Z2Nat.id in H by lia.
  by apply bool_decide_eq_true in H.
Qed.

Lemma octet_range (x k : Z) : 0 ≤ (x / k) `mod` 256 < 256.
Proof. apply Z.mod_pos_bound. lia. Qed.

Lemma string_of_ipv4_no_slash (x : Z) : has_char "/" (string_of_ipv4 x) = false.
Proof.
  unfold string_of_ipv4.
  pose proof (octet_pretty _ (octet_range x 16777216)) as (_ & _ & H1).
  pose proof (octet_pretty _ (octet_range x 65536)) as (_ & _ & H2).
  pose proof (octet_pretty _ (octet_range x 256)) as (_ & _ & H3).
  pose proof (octet_pretty (x `mod` 256)) as (_ & _ & H4).
  { apply Z.mod_pos_bound. lia. }
  rewrite !has_char_app, H1, H2, H3, H4. reflexivity.
Qed.

Lemma ipv4_of_string_of_ipv4 (x : Z) :
  0 ≤ x < 4294967296 → ipv4_of_string (string_of_ipv4 x) = Some x.
Proof.
  intros Hx. unfold ipv4_of_string, string_of_ipv4.
  pose proof (octet_pretty _ (octet_range x 16777216)) as (C1 & D1 & _).
  pose proof (octet_pretty _ (octet_range x 65536)) as (C2 & D2 & _).
  pose proof (octet_pretty _ (octet_range x 256)) as (C3 & D3 & _).
  pose proof (octet_pretty (x `mod` 256)) as (C4 & D4 & _).
  { apply Z.mod_pos_bound. lia. }
  rewrite !split_on_dot by done. rewrite split_on_nochar by done.
  rewrite C1, C2, C3, C4. f_equal.
  Z.div_mod_to_equations. lia.
Qed.

Lemma string_of_ipv4_inj (x y : Z) :
  0 ≤ x < 4294967296 → 0 ≤ y < 4294967296 →
  string_of_ipv4 x = string_of_ipv4 y → x = y.
Proof.
  intros Hx Hy E.
  apply ipv4_of_string_of_ipv4 in Hx, Hy. rewrite E in Hx. congruence.
Qed.

Lemma netmask_nonneg (n : Z) : 0 ≤ n → 0 ≤ netmask n.
Proof.
  intros Hn. unfold netmask. apply Z.shiftl_nonneg.
  rewrite Z.ones_equiv. pose proof (Z.pow_pos_nonneg 2 n). lia.
Qed.

Lemma masked_range (x n : Z) :
  0 ≤ x < 4294967296 → 0 ≤ n → 0 ≤ Z.land x (netmask n) < 4294967296.
Proof.
  intros Hx Hn. pose proof (netmask_nonneg n Hn) as Hm.
  assert (0 ≤ Z.land x (netmask n)) as H0 by (apply Z.land_nonneg; lia).
  split; [done|].
  destruct (decide (Z.land x (netmask n) = 0)) as [->|Hne]; [lia|].
  change 4294967296 with (2 ^ 32).
  apply Z.log2_lt_pow2; [lia|].
  pose proof (Z.log2_land x (netmask n) ltac:(lia) Hm).
  assert (0 < x).
  { destruct (decide (x = 0)) as [->|]; [|lia]. by rewrite Z.land_0_l in Hne. }
  assert (Z.log2 x < 32) by (apply Z.log2_lt_pow2; lia).
  lia.
Qed.

Lemma split_first_slash (s t : string) :
  has_char "/" s = false →
  split_first "/" (s +:+ "/" +:+ t) = (s, Some t).
Proof. apply (split_first_app "/"). Qed.

(** On well-formed input [net_addr] is the masking of the address by the
    netmask of the prefix length. *)
Lemma net_addr_ipv4 (a : string) (x n : Z) :
  ipv4_string a x → 0 ≤ n ≤ 32 →
  net_addr a n = OK (string_of_ipv4 (Z.land x (netmask n))).
Proof.
  intros [Hx ->] Hn. unfold net_addr, IPNetwork.
  rewrite split_first_slash by apply string_of_ipv4_no_slash.
  rewrite ipv4_of_string_of_ipv4 by done.
  by rewrite prefix_pretty.
Qed.

Lemma net_addr_OK_eq (a b : string) (x y n : Z) :
  ipv4_string a x → ipv4_string b y → 0 ≤ n ≤ 32 →
  net_addr a n = OK b ↔ Z.land x (netmask n) = y.
Proof.
  intros Ha [Hy ->] Hn. rewrite (net_addr_ipv4 a x n) by done.
  split.
  - intros [= E]. apply string_of_ipv4_inj in E; [done| |done].
    apply masked_range; [apply Ha|lia].
  - by intros ->.
Qed.

(** ** Containment *)

Lemma Network_contains_host_true (N : Network.t) (H : Host.t) :
  Network_contains N (Some (OHost H)) = OK true ↔
  net_addr (Host.ip_addr H) (Network.masklen N) = OK (Network.ip_addr N).
Proof.
  simpl. destruct (net_addr _ _) as [a|e]; simpl; [|by split].
  split.
  - intros [= E]. by apply String.eqb_eq in E as ->.
  - intros [= ->]. by rewrite String.eqb_refl.
Qed.

Lemma Network_contains_net_true (N1 N2 : Network.t) :
  Network_contains N1 (Some (ONet N2)) = OK true ↔
  net_addr (Network.ip_addr N2) (Network.masklen N1) = OK (Network.ip_addr N1)
  ∧ Network.masklen N1 ≤ Network.masklen N2.
Proof.
  simpl. destruct (net_addr _ _) as [a|e]; simpl; [|by split; [|intros []]].
  split.
  - intros [= E]. apply andb_true_iff in E as [E1 E2].
    apply String.eqb_eq in E1 as ->. apply Z.leb_le in E2. done.
  - intros [[= ->] Hle]. rewrite String.eqb_refl. simpl.
    f_equal. by apply Z.leb_le.
Qed.

(** On well-formed objects the test always returns. *)
Lemma Network_contains_returns (N : Network.t) (y : Z) (o : option NetObj) :
  Network_wf N y →
  match o with
  | Some (OHost H) => ∃ x, ipv4_string (Host.ip_addr H) x
  | Some (ONet N2) => ∃ x, ipv4_string (Network.ip_addr N2) x
  | None => True
  end →
  ∃ b, Network_contains N o = OK b.
Proof.
  intros [Hy Hn] Ho. destruct o as [[H|N2]|]; simpl.
  - destruct Ho as [x Hx]. rewrite (net_addr_ipv4 _ x) by done. eauto.
  - destruct Ho as [x Hx]. rewrite (net_addr_ipv4 _ x) by done. eauto.
  - eauto.
Qed.

(** C5. [contains(N, H)] holds iff the address of [H] masked by the prefix
    of [N] equals the address of [N]; [contains(N1, N2)] holds iff the
    address of [N2] masked by the prefix of [N1] equals the address of
    [N1] and the prefix of [N2] is at least that of [N1].  The masking is
    [net_addr]; on well-formed IPv4 objects it is the bitwise and of the
    32-bit address with the netmask. *)
Theorem containment_laws (N : Network.t) (H : Host.t) (N1 N2 : Network.t) :
  (Network_contains N (Some (OHost H)) = OK true ↔
     net_addr (Host.ip_addr H) (Network.masklen N) = OK (Network.ip_addr N))
  ∧ (Network_contains N1 (Some (ONet N2)) = OK true ↔
       net_addr (Network.ip_addr N2) (Network.masklen N1) = OK (Network.ip_addr N1)
       ∧ Network.masklen N1 ≤ Network.masklen N2)
  ∧ (∀ x y, ipv4_string (Host.ip_addr H) x → Network_wf N y →
       (Network_contains N (Some (OHost H)) = OK true ↔
          Z.land x (netmask (Network.masklen N)) = y))
  ∧ (∀ x1 x2, Network_wf N1 x1 → Network_wf N2 x2 →
       (Network_contains N1 (Some (ONet N2)) = OK true ↔
          Z.land x2 (netmask (Network.masklen N1)) = x1
          ∧ Network.masklen N1 ≤ Network.masklen N2)).
Proof.
  split; [apply Network_contains_host_true|].
  split; [apply Network_contains_net_true|].
  split.
  - intros x y Hx [Hy Hn]. rewrite Network_contains_host_true.
    by apply net_addr_OK_eq.
  - intros x1 x2 [H1 Hn1] [H2 Hn2]. rewrite Network_contains_net_true.
    by rewrite (net_addr_OK_eq _ _ x2 x1).
Qed.

Lemma containment_laws_witness :
  let N := Network.mk "lan" "1.2.3.0" 24 in
  let H := Host.mk "webserver" "eth0" "1.2.3.10" "24" "1" "0" "1" [] in
  let N2 := Network.mk "office" "1.2.3.128" 25 in
  Network_contains N (Some (OHost H)) = OK true
  ∧ Network_contains N (Some (ONet N2)) = OK true
  ∧ Z.land 16909066 (netmask 24) = 16909056
  ∧ Z.land 16909184 (netmask 24) = 16909056.
Proof.
  intros N H N2.
  destruct (containment_laws N H N N2) as (L1 & L2 & L3 & L4).
  assert (ipv4_string (Host.ip_addr H) 16909066) as Hx by (split; [lia|reflexivity]).
  assert (Network_wf N 16909056) as HN
    by (split; [split; [lia|reflexivity]|simpl; lia]).
  assert (Network_wf N2 16909184) as HN2
    by (split; [split; [lia|reflexivity]|simpl; lia]).
  assert (Network_contains N (Some (OHost H)) = OK true) as E1
    by (apply L1; reflexivity).
  assert (Network_contains N (Some (ONet N2)) = OK true) as E2
    by (apply L2; split; [reflexivity|simpl; lia]).
  split; [exact E1|]. split; [exact E2|]. split.
  - exact (proj1 (L3 _ _ Hx HN) E1).
  - exact (proj1 (proj1 (L4 _ _ HN HN2) E2)).
Defined.

(** ** Loops over lists *)

Lemma mapM_OK_Forall2 {A B : Type} (f : A → result B) (l : list A) (ys : list B) :
  mapM f l = OK ys ↔ Forall2 (λ x y, f x = OK y) l ys.
Proof.
  revert ys. induction l as [|x l IH]; intros ys; simpl.
  - split; [intros [= <-]; constructor|by inversion 1].
  - rewrite bind_OK. split.
    + intros (y & Hy & H). apply bind_OK in H as (ys' & H & [= <-]).
      constructor; [done|by apply IH].
    + inversion 1 as [|? y ? ys' Hy Hys]; subst. exists y. split; [done|].
      apply bind_OK. exists ys'. split; [by apply IH|done].
Qed.




(** ** Flattening of host groups *)

Section Flatten.
(** [hg_by_name]: group name to child names. *)
Variable _hbn : gmap string (list string).




End Flatten.










(** ** Reordering of rules *)

Lemma py_pos_out {A : Type} (l : list A) (i : Z) :
  i < - Z.of_nat (length l) ∨ Z.of_nat (length l) ≤ i →
  py_pos l i = Raise IndexError.
Proof.
  intros H. unfold py_pos.
  destruct (Z.leb_spec 0 i), (Z.ltb_spec i (Z.of_nat (length l))),
    (Z.leb_spec (- Z.of_nat (length l)) i), (Z.ltb_spec i 0);
    simpl; (done || lia).
Qed.

Lemma py_index_out {A : Type} (l : list A) (i : Z) :
  i < - Z.of_nat (length l) ∨ Z.of_nat (length l) ≤ i →
  py_index l i = Raise IndexError.
Proof. intros H. unfold py_index. by rewrite py_pos_out. Qed.

Lemma swap_out (rules : list Rule.t) (i j : Z) :
  (i < - Z.of_nat (length rules) ∨ Z.of_nat (length rules) ≤ i)
  ∨ (j < - Z.of_nat (length rules) ∨ Z.of_nat (length rules) ≤ j) →
  Rules.swap rules i j = Raise IndexError.
Proof.
  intros [H|H]; unfold Rules.swap.
  - destruct (py_index rules j) as [a|e] eqn:E; simpl.
    + by rewrite py_index_out.
    + unfold py_index in E. destruct (py_pos rules j) as [n|e'] eqn:E'; simpl in E.
      * destruct (rules !! n); [discriminate|by injection E as <-].
      * unfold py_pos in E'.
        repeat (destruct (_ && _) in E'; try discriminate).
        injection E' as <-. by injection E as <-.
  - by rewrite py_index_out.
Qed.

Lemma try_pass_returns {S : Type} (self : S) (body : result S) :
  ∃ s, try_pass self body = OK s.
Proof. destruct body; simpl; eauto. Qed.

(** C9 (as the code has it).  A reorder request never raises: the
    exception of a bad subscript is swallowed.  When a subscript of the
    swap is outside the list (for [moveup], [rid] at or beyond the length
    or at or below its negation; for [movedown], [rid] at or beyond the
    last index or below the negated length), the rule list and the saved
    file are left unchanged. *)
Theorem reorder_out_of_range (self : Rules.t) (rid : Z) :
  let len := Z.of_nat (length (Rules._list self)) in
  (∃ s, Rules.moveup self rid = OK s)
  ∧ (∃ s, Rules.movedown self rid = OK s)
  ∧ (len ≤ rid ∨ rid ≤ - len → Rules.moveup self rid = OK self)
  ∧ (len - 1 ≤ rid ∨ rid < - len → Rules.movedown self rid = OK self).
Proof.
  intros len. split; [apply try_pass_returns|]. split; [apply try_pass_returns|].
  split; intros H.
  - unfold Rules.moveup. rewrite swap_out; [done|]. subst len. lia.
  - unfold Rules.movedown. rewrite swap_out; [done|]. subst len. lia.
Qed.

Lemma reorder_out_of_range_witness :
  let self := Rules.mk [rule_a; rule_b; rule_c] [rule_a; rule_b; rule_c] in
  Rules.moveup self 3 = OK self ∧ Rules.movedown self 2 = OK self.
Proof.
  intros self.
  destruct (reorder_out_of_range self 3) as (_ & _ & Hup & _).
  destruct (reorder_out_of_range self 2) as (_ & _ & _ & Hdown).
  split; [apply Hup|apply Hdown]; simpl; lia.
Defined.

(** C9, as claimed, fails: moving the last rule down returns normally with
    no error, and moving the first rule up exchanges it with the last one. *)
Lemma reorder_raises_nothing :
  let self := Rules.mk [rule_a; rule_b; rule_c] [rule_a; rule_b; rule_c] in
  Rules.movedown self 2 = OK self
  ∧ Rules.moveup self 0
    = OK (Rules.mk [rule_c; rule_b; rule_a] [rule_c; rule_b; rule_a]).
Proof. by vm_compute. Qed.

(** ** The save gate of [deploy] *)

(** C8. When the repository has unsaved changes, [deploy] raises
    [SaveRequired] at once: nothing is compiled, no request reaches the
    fleet client (the trace is empty) and the object is unchanged. *)
Theorem deploy_save_gate
    (sx_get_confs : gmap string (list string) → result (gmap string HostConf))
    (sx_deliver_confs : gmap string (gmap string (list string)) → result unit)
    (sx_apply_remote_confs : result unit) (depth : nat) (self : FireSet.t) :
  FireSet.save_needed self = OK true →
  FireSet.deploy sx_get_confs sx_deliver_confs sx_apply_remote_confs depth self
  = (Raise SaveRequired, self, []).
Proof.
  intros Hdirty. unfold FireSet.deploy, FireSet.act_bind, FireSet.act_read.
  by rewrite Hdirty.
Qed.

Lemma deploy_save_gate_witness :
  let self := fireset [allow_ping "1"] [fw; webserver] [] dirty_status in
  FireSet.deploy (λ _, OK ∅) (λ _, OK tt) (OK tt) 1000 self
  = (Raise SaveRequired, self, []).
Proof.
  intros self. apply deploy_save_gate. reflexivity.
Defined.

(** ** What one compiled tuple adds to the chains *)

Lemma foldM_cons {A S : Type} (f : S → A → result S) (x : A) (l : list A) (s s' : S) :
  foldM f (x :: l) s = OK s' ↔ ∃ s1, f s x = OK s1 ∧ foldM f l s1 = OK s'.
Proof. simpl. apply bind_OK. Qed.

Lemma foldM_app {A S : Type} (f : S → A → result S) (l1 l2 : list A) (s : S) :
  foldM f (l1 ++ l2) s = (s1 ←! foldM f l1 s; foldM f l2 s1).
Proof.
  revert s. induction l1 as [|x l1 IH]; intros s; simpl; [done|].
  destruct (f s x); simpl; [apply IH|done].
Qed.

Section Splice.
Variable self : FireSet.t.
Variable c : Compiled.

Lemma alter_append_INPUT (l : list string) (hn : string) (rd : gmap string Chains) :
  alter (FireSet.append_INPUT l) hn rd = alter (add_lines (mkLines l [] [])) hn rd.
Proof.
  apply alter_ext. intros [i o f] _.
  unfold FireSet.append_INPUT, add_lines. simpl. by rewrite !app_nil_r.
Qed.

Lemma alter_append_OUTPUT (l : list string) (hn : string) (rd : gmap string Chains) :
  alter (FireSet.append_OUTPUT l) hn rd = alter (add_lines (mkLines [] l [])) hn rd.
Proof.
  apply alter_ext. intros [i o f] _.
  unfold FireSet.append_OUTPUT, add_lines. simpl. by rewrite !app_nil_r.
Qed.

Lemma alter_append_FORWARD (l : list string) (hn : string) (rd : gmap string Chains) :
  alter (FireSet.append_FORWARD l) hn rd = alter (add_lines (mkLines [] [] l)) hn rd.
Proof.
  apply alter_ext. intros [i o f] _.
  unfold FireSet.append_FORWARD, add_lines. simpl. by rewrite !app_nil_r.
Qed.

Lemma alter_add_nothing (hn : string) (rd : gmap string Chains) :
  alter (add_lines (mkLines [] [] [])) hn rd = rd.
Proof.
  apply alter_id. intros [i o f] _. unfold add_lines. simpl.
  by rewrite !app_nil_r.
Qed.

Lemma alter_add_lines (e1 e2 : Lines) (hn : string) (rd : gmap string Chains) :
  alter (add_lines e2) hn (alter (add_lines e1) hn rd)
  = alter (add_lines (mkLines (to_INPUT e1 ++ to_INPUT e2)
                        (to_OUTPUT e1 ++ to_OUTPUT e2)
                        (to_FORWARD e1 ++ to_FORWARD e2))) hn rd.
Proof.
  rewrite alter_alter_eq. apply alter_ext. intros [i o f] _.
  unfold add_lines. simpl. by rewrite !app_assoc.
Qed.

(** The loop body creates the entry of the hostname if need be and
    appends the emitted lines to its chains. *)
Lemma splice_host_emitted (rd : gmap string Chains) (h : Host.t) :
  FireSet.splice_host self c rd h =
  (e ←! emitted self c h;
   OK (alter (add_lines e) (Host.hostname h) (FireSet.insert_first_rules h rd))).
Proof.
  unfold FireSet.splice_host, emitted, forwards.
  destruct (FireSet.same_ipt _ _); simpl; [by rewrite alter_add_nothing|].
  destruct (FireSet.host_in h (c_dst c)) as [to_me|]; simpl; [|done].
  destruct (FireSet.host_in h (c_src c)) as [from_me|]; simpl; [|done].
  destruct (String.eqb (Host.network_fw h) "0"); simpl.
  { destruct to_me, from_me; f_equal;
      rewrite ?alter_append_INPUT, ?alter_append_OUTPUT, ?alter_add_lines,
        ?alter_add_nothing; simpl; rewrite ?app_nil_r; done. }
  destruct (mapM _ (Host.routed h)) as [rr|]; simpl; [|done].
  destruct (mapM _ rr) as [nets|]; simpl; [|done].
  destruct (FireSet._oo_forwarded _ _ _ _ _) as [forw|]; simpl; [|done].
  destruct to_me, from_me, forw; f_equal;
    rewrite ?alter_append_INPUT, ?alter_append_OUTPUT, ?alter_append_FORWARD,
      ?alter_add_lines, ?alter_add_nothing; simpl; rewrite ?app_nil_r; done.
Qed.
End Splice.

Lemma rows_of_cons (hn : string) (h : Host.t) (hs : list Host.t) :
  rows_of hn (h :: hs)
  = if decide (Host.hostname h = hn) then h :: rows_of hn hs else rows_of hn hs.
Proof. unfold rows_of. by rewrite filter_cons. Qed.

Lemma add_all_chains (es : list Lines) (ch : Chains) :
  INPUT (add_all es ch) = INPUT ch ++ concat (to_INPUT <$> es)
  ∧ OUTPUT (add_all es ch) = OUTPUT ch ++ concat (to_OUTPUT <$> es)
  ∧ FORWARD (add_all es ch) = FORWARD ch ++ concat (to_FORWARD <$> es).
Proof.
  revert ch. induction es as [|e es IH]; intros ch; simpl.
  - by rewrite !app_nil_r.
  - destruct (IH (add_lines e ch)) as (-> & -> & ->). simpl.
    by rewrite !app_assoc.
Qed.

Lemma add_all_app (es1 es2 : list Lines) (ch : Chains) :
  add_all (es1 ++ es2) ch = add_all es2 (add_all es1 ch).
Proof. apply foldl_app. Qed.

Section SpliceHosts.
Variable self : FireSet.t.
Variable c : Compiled.

(** The loop over the rows, seen from one hostname: its chains receive
    the lines emitted for its rows, in row order. *)
Lemma splice_hosts_lookup (hs : list Host.t) (rd rd' : gmap string Chains)
    (hn : string) :
  foldM (FireSet.splice_host self c) hs rd = OK rd' →
  ∃ es, mapM (emitted self c) (rows_of hn hs) = OK es
        ∧ rd' !! hn = add_all es <$> start rd hn hs.
Proof.
  revert rd. induction hs as [|h hs IH]; intros rd H.
  - injection H as <-. exists []. split; [done|].
    unfold start. simpl. by destruct (rd !! hn).
  - apply foldM_cons in H as (rd1 & H1 & H).
    rewrite splice_host_emitted in H1.
    apply bind_OK in H1 as (e & He & [= <-]).
    destruct (IH _ H) as (es & Hes & Hrd'). clear IH H.
    unfold start. rewrite rows_of_cons.
    destruct (decide (Host.hostname h = hn)) as [<-|Hne].
    + exists (e :: es). simpl. rewrite He, Hes. split; [done|].
      rewrite Hrd'. unfold start.
      rewrite lookup_alter_eq. unfold FireSet.insert_first_rules.
      destruct (rd !! Host.hostname h) as [ch|] eqn:E.
      * by rewrite E.
      * by rewrite lookup_insert_eq.
    + exists es. split; [done|]. rewrite Hrd'. unfold start.
      rewrite lookup_alter_ne by done.
      unfold FireSet.insert_first_rules.
      destruct (rd !! Host.hostname h); [done|].
      by rewrite lookup_insert_ne.
Qed.

(** The loop over the rows returns when every row's lines can be
    computed. *)
Lemma splice_hosts_returns (hs : list Host.t) (rd : gmap string Chains) :
  (∀ h, h ∈ hs → ∃ e, emitted self c h = OK e) →
  ∃ rd', foldM (FireSet.splice_host self c) hs rd = OK rd'.
Proof.
  revert rd. induction hs as [|h hs IH]; intros rd H; simpl; [eauto|].
  rewrite splice_host_emitted. destruct (H h) as [e ->]; [by left|]. simpl.
  apply IH. intros h' Hh'. apply H. by right.
Qed.
End SpliceHosts.

Section SpliceTuples.
Variable self : FireSet.t.

Lemma start_after (rd rd1 : gmap string Chains) (hn : string) (es : list Lines) :
  rd1 !! hn = add_all es <$> start rd hn (FireSet.hosts self) →
  start rd1 hn (FireSet.hosts self)
  = add_all es <$> start rd hn (FireSet.hosts self).
Proof.
  intros H. unfold start at 1. rewrite H.
  destruct (start rd hn (FireSet.hosts self)) as [ch|] eqn:E; simpl; [done|].
  unfold start in E. destruct (rd !! hn); [done|].
  by destruct (head (rows_of hn (FireSet.hosts self))).
Qed.

(** The loop over the compiled tuples, seen from one hostname. *)
Lemma splice_tuples_lookup (cs : list Compiled) (rd rd' : gmap string Chains)
    (hn : string) :
  foldM (FireSet.splice_tuple self) cs rd = OK rd' →
  ∃ ess,
    Forall2 (λ c es,
      mapM (emitted self c) (rows_of hn (FireSet.hosts self)) = OK es) cs ess
    ∧ rd' !! hn =
      match cs with
      | [] => rd !! hn
      | _ => add_all (concat ess) <$> start rd hn (FireSet.hosts self)
      end.
Proof.
  revert rd. induction cs as [|c cs IH]; intros rd H.
  - injection H as <-. exists []. by split.
  - apply foldM_cons in H as (rd1 & H1 & H).
    destruct (splice_hosts_lookup self c _ _ _ hn H1) as (es & Hes & Hrd1).
    destruct (IH _ H) as (ess & Hess & Hrd').
    exists (es :: ess). split; [by constructor|].
    rewrite Hrd'. simpl. destruct cs as [|c' cs].
    + inversion Hess; subst. simpl. by rewrite app_nil_r.
    + rewrite (start_after _ _ _ es Hrd1).
      destruct (start rd hn (FireSet.hosts self)); simpl; [|done].
      by rewrite add_all_app.
Qed.

(** What a successful compilation went through. *)
Lemma compile_rules_OK (depth : nat) (rd : gmap string Chains) :
  FireSet.compile_rules depth self = OK rd →
  FireSet.save_needed self = OK false
  ∧ ∃ fhg cs, FireSet.flat_hg depth self = OK fhg
      ∧ FireSet.compiled self fhg = OK cs
      ∧ foldM (FireSet.splice_tuple self) cs ∅ = OK rd.
Proof.
  unfold FireSet.compile_rules. intros H.
  apply bind_OK in H as (dirty & Hd & H).
  apply bind_OK in H as ([] & Ha & H). apply py_assert_OK in Ha.
  apply negb_true_iff in Ha as ->.
  apply bind_OK in H as (? & _ & H).
  apply bind_OK in H as (fhg & Hf & H).
  apply bind_OK in H as (cs & Hc & H).
  split; [done|]. by exists fhg, cs.
Qed.
End SpliceTuples.

(** ** The per-host preamble *)

Lemma first_rules_heads (h : Host.t) (es : list Lines) :
  let ch := add_all es (FireSet.first_rules h) in
  head (INPUT ch) = Some stateful_accept
  ∧ head (OUTPUT ch) = Some stateful_accept
  ∧ head (FORWARD ch)
    = Some (if String.eqb (Host.network_fw h) "1" then stateful_accept
            else "-j DROP").
Proof.
  intros ch. subst ch.
  destruct (add_all_chains es (FireSet.first_rules h)) as (-> & -> & ->).
  simpl. by destruct (String.eqb _ _).
Qed.

(** When at least one tuple is compiled, every hostname of the hosts
    table has an entry, and its chains open with the first rules of the
    first row of that hostname. *)
Lemma compile_rules_preamble (depth : nat) (self : FireSet.t)
    (rd : gmap string Chains) (fhg : gmap string (list NetObj))
    (c : Compiled) (cs : list Compiled) (h : Host.t) :
  FireSet.compile_rules depth self = OK rd →
  FireSet.flat_hg depth self = OK fhg →
  FireSet.compiled self fhg = OK (c :: cs) →
  h ∈ FireSet.hosts self →
  ∃ ch h0, rd !! Host.hostname h = Some ch
    ∧ head (rows_of (Host.hostname h) (FireSet.hosts self)) = Some h0
    ∧ head (INPUT ch) = Some stateful_accept
    ∧ head (OUTPUT ch) = Some stateful_accept
    ∧ head (FORWARD ch)
      = Some (if String.eqb (Host.network_fw h0) "1" then stateful_accept
              else "-j DROP").
Proof.
  intros Hrd Hf Hc Hh.
  apply compile_rules_OK in Hrd as (_ & fhg' & cs' & Hf' & Hc' & Hfold).
  rewrite Hf in Hf'. injection Hf' as <-. rewrite Hc in Hc'. injection Hc' as <-.
  destruct (splice_tuples_lookup self _ _ _ (Host.hostname h) Hfold)
    as (ess & _ & Hlook).
  unfold start in Hlook. rewrite lookup_empty in Hlook.
  destruct (rows_of (Host.hostname h) (FireSet.hosts self)) as [|h0 rows] eqn:E.
  { exfalso. assert (h ∈ rows_of (Host.hostname h) (FireSet.hosts self)) as Hin
      by (by apply list_elem_of_filter).
    rewrite E in Hin. by apply elem_of_nil in Hin. }
  simpl in Hlook. eexists _, h0. split; [exact Hlook|]. split; [done|].
  apply first_rules_heads.
Qed.

(** When no tuple is compiled, the dictionary is empty: no host has an
    entry. *)
Lemma compile_rules_no_tuple (depth : nat) (self : FireSet.t)
    (rd : gmap string Chains) (fhg : gmap string (list NetObj)) :
  FireSet.compile_rules depth self = OK rd →
  FireSet.flat_hg depth self = OK fhg →
  FireSet.compiled self fhg = OK [] →
  rd = ∅.
Proof.
  intros Hrd Hf Hc.
  apply compile_rules_OK in Hrd as (_ & fhg' & cs' & Hf' & Hc' & Hfold).
  rewrite Hf in Hf'. injection Hf' as <-. rewrite Hc in Hc'. injection Hc' as <-.
  by injection Hfold as <-.
Qed.

(** A rule that is not enabled adds no tuple. *)
Lemma compile_rule_disabled (self : FireSet.t) (fhg : gmap string (list NetObj))
    (rule : Rule.t) :
  Rule.enabled rule = "0" → FireSet.compile_rule self fhg rule = OK [].
Proof. intros E. unfold FireSet.compile_rule. by rewrite E. Qed.

Lemma compiled_all_disabled (self : FireSet.t) (fhg : gmap string (list NetObj)) :
  Forall (λ rule, Rule.enabled rule = "0") (FireSet.rules self) →
  FireSet.compiled self fhg = OK [].
Proof.
  unfold FireSet.compiled. induction (FireSet.rules self) as [|r rs IH];
    intros H; [done|].
  apply Forall_cons in H as [Hr Hrs]. simpl.
  rewrite (compile_rule_disabled _ _ _ Hr). simpl.
  specialize (IH Hrs). apply bind_OK in IH as (css & -> & [= E]). simpl.
  by rewrite E.
Qed.

(** C1 (the code at the failing input).  With its only rule disabled, the
    compilation of the two-host scenario returns an empty dictionary:
    neither host has an entry, hence no chain carries the preamble. *)
Theorem compile_rules_no_rule_no_preamble :
  let self := fireset [allow_ping "0"] [fw; webserver] [] clean_status in
  fw ∈ FireSet.hosts self ∧ webserver ∈ FireSet.hosts self
  ∧ ∃ rd, FireSet.compile_rules 1000 self = OK rd
      ∧ rd = ∅
      ∧ rd !! Host.hostname fw = None
      ∧ rd !! Host.hostname webserver = None.
Proof.
  intros self. split; [by left|]. split; [by right; left|].
  exists ∅. split; [by vm_compute|]. by rewrite !lookup_empty.
Qed.

(** ** Forwarding *)

(** An entry of the [net] dictionary never contains an instance: its
    items are a string and an integer. *)
Lemma net_tuple_no_instance (rnet : string * Z) (o : NetObj) :
  tuple_contains (net_tuple rnet) (VObj o) = false.
Proof. reflexivity. Qed.

Lemma routed_loop_instance (s : NetObj) (dst : option NetObj)
    (routed_nets : list (string * Z)) :
  FireSet.routed_loop (Some s) dst routed_nets = false.
Proof. induction routed_nets as [|rnet rest IH]; simpl; [done|exact IH]. Qed.

(** Past the directly connected network, [_oo_forwarded] answers false
    whatever the routed networks are. *)
Lemma _oo_forwarded_routed (s : NetObj) (dst : option NetObj) (me : Host.t)
    (mynet : Network.t) (routed_nets : list (string * Z))
    (other_ifaces : list Host.t) :
  Host.ip_addr me ≠ NetObj_ip_addr s →
  mynetwork me = OK mynet →
  Network_contains mynet (Some s) = OK false →
  FireSet._oo_forwarded (Some s) dst me routed_nets other_ifaces = OK false.
Proof.
  intros Hne Hnet Hdirect. unfold FireSet._oo_forwarded.
  apply String.eqb_neq in Hne. rewrite Hne, Hnet. cbn [bind].
  rewrite Hdirect. cbn [bind]. by rewrite routed_loop_instance.
Qed.

(** C2 (the code at the failing input).  [mail] is not the wildcard, has
    another address than the firewall and lies outside its directly
    connected network; the routed network [dmz] of the firewall contains
    [mail] and not [webserver].  Yet the forwarding test answers false and
    the FORWARD chain of the firewall holds its first rule only. *)
Theorem routed_pair_not_forwarded :
  Host.network_fw router = "1"
  ∧ Host.ip_addr router ≠ Host.ip_addr mail
  ∧ (n ←! mynetwork router; Network_contains n (Some (OHost mail))) = OK false
  ∧ "dmz" ∈ Host.routed router
  ∧ FireSet.net_by_name routed_fireset !! "dmz" = Some dmz
  ∧ Network_contains dmz (Some (OHost mail)) = OK true
  ∧ Network_contains dmz (Some (OHost webserver)) = OK false
  ∧ FireSet._oo_forwarded (Some (OHost mail)) (Some (OHost webserver)) router
      [("10.0.0.0", 24)] [] = OK false
  ∧ ∃ rd ch, FireSet.compile_rules 1000 routed_fireset = OK rd
      ∧ rd !! "fw" = Some ch
      ∧ FORWARD ch = [stateful_accept].
Proof.
  split; [reflexivity|]. split; [discriminate|]. split; [by vm_compute|].
  split; [by left|]. split; [by vm_compute|]. split; [by vm_compute|].
  split; [by vm_compute|]. split; [by vm_compute|].
  eexists _, _. split; [by vm_compute|]. split; by vm_compute.
Qed.

(** ** LOG lines *)

(** On FORWARD the LOG line and the action line come together, whatever
    the log level of the tuple: the loop body tests [log_val] for INPUT
    and OUTPUT only. *)
Lemma emitted_FORWARD (self : FireSet.t) (c : Compiled) (h : Host.t) (e : Lines) :
  emitted self c h = OK e →
  to_FORWARD e = [] ∨ to_FORWARD e = [log_line c; action_line c].
Proof.
  unfold emitted. destruct (FireSet.same_ipt _ _).
  - intros [= <-]. by left.
  - intros H. apply bind_OK in H as (to_me & _ & H).
    apply bind_OK in H as (from_me & _ & H).
    apply bind_OK in H as ([] & _ & [= <-]); simpl; auto.
Qed.

Lemma emitted_forwarded (self : FireSet.t) (c : Compiled) (h : Host.t) (e : Lines) :
  emitted self c h = OK e →
  FireSet.same_ipt (c_src c) (c_dst c) = false →
  forwards self c h = OK true →
  to_FORWARD e = [log_line c; action_line c].
Proof.
  unfold emitted. intros H Hs Hf. rewrite Hs in H.
  apply bind_OK in H as (to_me & _ & H).
  apply bind_OK in H as (from_me & _ & H).
  rewrite Hf in H. by injection H as <-.
Qed.

(** C3 (the code at the failing input).  The rule has log level 0 and the
    firewall forwards its pair (the source is the wildcard).  INPUT and
    OUTPUT receive the action line alone, FORWARD receives a LOG line
    with level 0 before the action line. *)
Theorem forward_logs_at_level_0 :
  let self := fireset [allow_ping "1"] [fw; webserver] [] clean_status in
  Rule.log_level (allow_ping "1") = "0"
  ∧ ∃ rd ch_fw ch_web, FireSet.compile_rules 1000 self = OK rd
      ∧ rd !! "fw" = Some ch_fw ∧ rd !! "webserver" = Some ch_web
      ∧ INPUT ch_web = [stateful_accept; " -p ip -d 1.2.3.10 -j ACCEPT"]
      ∧ OUTPUT ch_fw = [stateful_accept; " -p ip -d 1.2.3.10 -j ACCEPT"]
      ∧ FORWARD ch_fw =
          [stateful_accept;
           " -p ip -d 1.2.3.10 -j LOG --log-level 0 --log-prefix allow_ping";
           " -p ip -d 1.2.3.10 -j ACCEPT"].
Proof.
  intros self. split; [reflexivity|].
  eexists _, _, _. split; [by vm_compute|].
  split; [by vm_compute|]. split; [by vm_compute|].
  split; [by vm_compute|]. split; by vm_compute.
Qed.

(** ** The per-interface dictionary *)

(** With the hosts table as it is loaded, [compile_dict] never returns a
    dictionary once the table has a row: the loop fails on the first
    [Host] instance. *)
Lemma compile_dict_hosts_table (depth : nat) (self : FireSet.t)
    (rset : option FireSet.RSet) (rd : gmap string (gmap string (list string))) :
  FireSet.hosts self ≠ [] →
  FireSet.compile_dict depth self None rset ≠ OK rd.
Proof.
  intros Hh H. unfold FireSet.compile_dict in H.
  apply bind_OK in H as (dirty & _ & H).
  apply bind_OK in H as (? & _ & H).
  apply bind_OK in H as (rs & _ & H).
  destruct (FireSet.hosts self) as [|h hs]; [done|]. discriminate.
Qed.

(** C4 (the code at the failing input).  Called as [deploy] calls it, on
    the two-host scenario, [compile_dict] raises [TypeError].  Given the
    rows in the eight-field form it returns, but the lists are empty: the
    filter runs over the hostnames that key the compiled dictionary,
    while the INPUT chain of [webserver] has a line with its address. *)
Theorem compile_dict_fails_on_hosts :
  let self := fireset [allow_ping "1"] [fw; webserver] [] clean_status in
  FireSet.compile_dict 1000 self None None
  = Raise (TypeError "'Host' object is not iterable")
  ∧ FireSet.compile_dict 1000 self (Some legacy_rows) None
    = OK (<["fw" := {["eth0" := []]}]> (<["webserver" := {["eth0" := []]}]> ∅))
  ∧ ∃ rd ch, FireSet.compile_rules 1000 self = OK rd
      ∧ rd !! "webserver" = Some ch
      ∧ " -p ip -d 1.2.3.10 -j ACCEPT" ∈ INPUT ch
      ∧ str_in "1.2.3.10" " -p ip -d 1.2.3.10 -j ACCEPT" = true.
Proof.
  intros self. split; [by vm_compute|]. split; [by vm_compute|].
  eexists _, _. split; [by vm_compute|]. split; [by vm_compute|].
  split; [|by vm_compute]. right. left.
Qed.

(** ** Skipped pairs *)

Lemma pretty_N_go_no_slash (x : N) (s : string) :
  has_char "/" (pretty_N_go x s) = has_char "/" s.
Proof.
  revert s. induction (N.lt_wf_0 x) as [x _ IH]; intros s.
  destruct (decide (x = 0%N)) as [->|Hx]; [by rewrite pretty_N_go_0|].
  rewrite pretty_N_go_step by lia.
  rewrite IH by (apply N.div_lt; lia).
  simpl. unfold pretty_N_char. by repeat case_match.
Qed.

Lemma pretty_N_no_slash (x : N) : has_char "/" (pretty x) = false.
Proof.
  unfold pretty, pretty_N. case_decide; [done|]. by rewrite pretty_N_go_no_slash.
Qed.

Lemma pretty_Z_no_slash (z : Z) : has_char "/" (pretty z) = false.
Proof.
  destruct z as [|p|p]; [done| |].
  - apply (pretty_N_no_slash (N.pos p)).
  - change (pretty (Z.neg p)) with ("-" +:+ pretty (N.pos p)). simpl.
    apply (pretty_N_no_slash (N.pos p)).
Qed.

(** A string is cut in one way only at its last slash. *)
Lemma app_slash_inj (s1 s2 t1 t2 : string) :
  has_char "/" t1 = false → has_char "/" t2 = false →
  s1 +:+ "/" +:+ t1 = s2 +:+ "/" +:+ t2 → s1 = s2 ∧ t1 = t2.
Proof.
  intros H1 H2. revert s2.
  assert (∀ s t, has_char "/" (s +:+ String "/" t) = true) as Hin.
  { intros s t. rewrite has_char_app. simpl. apply orb_true_r. }
  induction s1 as [|a s1 IH]; intros [|b s2] E.
  - change (String "/" t1 = String "/" t2) in E. by injection E as ->.
  - change (String "/" t1 = String b (s2 +:+ String "/" t2)) in E.
    injection E as <- ->. by rewrite (Hin s2 t2) in H1.
  - change (String a (s1 +:+ String "/" t1) = String "/" t2) in E.
    injection E as -> <-. by rewrite (Hin s1 t1) in H2.
  - change (String a (s1 +:+ "/" +:+ t1) = String b (s2 +:+ "/" +:+ t2)) in E.
    injection E as -> E. by destruct (IH _ E) as [-> ->].
Qed.

Lemma Network_ipt_inj (n1 n2 : Network.t) :
  Network.ipt n1 = Network.ipt n2 ↔
  Network.ip_addr n1 = Network.ip_addr n2 ∧ Network.masklen n1 = Network.masklen n2.
Proof.
  unfold Network.ipt. split.
  - intros E. apply app_slash_inj in E as [E1 E2];
      [|apply pretty_Z_no_slash..].
    split; [done|]. by apply (inj pretty).
  - by intros [-> ->].
Qed.

Lemma same_ipt_true (src dst : option NetObj) :
  FireSet.same_ipt src dst = true ↔
  ∃ s d, src = Some s ∧ dst = Some d ∧ NetObj_ipt s = NetObj_ipt d.
Proof.
  unfold FireSet.same_ipt. destruct src as [s|], dst as [d|]; split;
    try discriminate; try by intros (? & ? & ? & ? & _).
  - intros E. apply String.eqb_eq in E. by exists s, d.
  - intros (? & ? & [= <-] & [= <-] & E). by apply String.eqb_eq.
Qed.

(** A skipped pair adds the entry of the hostname and nothing else. *)
Lemma splice_host_skipped (self : FireSet.t) (c : Compiled)
    (rd : gmap string Chains) (h : Host.t) :
  FireSet.same_ipt (c_src c) (c_dst c) = true →
  FireSet.splice_host self c rd h = OK (FireSet.insert_first_rules h rd).
Proof. intros E. unfold FireSet.splice_host. by rewrite E. Qed.

(** C6 (as the code has it).  A pair is skipped exactly when both
    endpoints are objects with the same iptables rendering: two hosts
    with identical addresses, or two networks with identical address and
    prefix length; a host whose address holds no slash never renders as a
    network, and a pair with a wildcard is never skipped.  A skipped pair
    adds no line; hence a pair that adds a line for some row, with both
    endpoints given, has different [-s] and [-d] arguments. *)
Theorem skip_iff_same_rendering (src dst : option NetObj) :
  (FireSet.same_ipt src dst = true ↔
     ∃ s d, src = Some s ∧ dst = Some d ∧ NetObj_ipt s = NetObj_ipt d)
  ∧ (∀ h1 h2, FireSet.same_ipt (Some (OHost h1)) (Some (OHost h2)) = true ↔
       Host.ip_addr h1 = Host.ip_addr h2)
  ∧ (∀ n1 n2, FireSet.same_ipt (Some (ONet n1)) (Some (ONet n2)) = true ↔
       Network.ip_addr n1 = Network.ip_addr n2
       ∧ Network.masklen n1 = Network.masklen n2)
  ∧ (∀ h n, has_char "/" (Host.ip_addr h) = false →
       FireSet.same_ipt (Some (OHost h)) (Some (ONet n)) = false
       ∧ FireSet.same_ipt (Some (ONet n)) (Some (OHost h)) = false)
  ∧ FireSet.same_ipt None dst = false ∧ FireSet.same_ipt src None = false
  ∧ (∀ self c rd h, c_src c = src → c_dst c = dst →
       FireSet.same_ipt src dst = true →
       FireSet.splice_host self c rd h = OK (FireSet.insert_first_rules h rd))
  ∧ (∀ self c h e s d, c_src c = src → c_dst c = dst →
       emitted self c h = OK e → e ≠ mkLines [] [] [] →
       src = Some s → dst = Some d → NetObj_ipt s ≠ NetObj_ipt d).
Proof.
  split; [apply same_ipt_true|].
  split; [intros h1 h2; apply String.eqb_eq|].
  split.
  { intros n1 n2. simpl. rewrite String.eqb_eq. apply Network_ipt_inj. }
  split.
  { intros h n Hh.
    assert (Host.ip_addr h ≠ Network.ipt n) as Hne.
    { intros E. rewrite E in Hh. unfold Network.ipt in Hh.
      rewrite has_char_app in Hh. simpl in Hh. by rewrite orb_true_r in Hh. }
    simpl. unfold Host.ipt. split; apply String.eqb_neq; congruence. }
  split; [done|]. split; [by destruct src|]. split.
  - intros self c rd h <- <-. apply splice_host_skipped.
  - intros self c h e s d <- <- He Hne Hs Hd Eq.
    unfold emitted in He. rewrite Hs, Hd in He. simpl in He.
    apply String.eqb_eq in Eq. rewrite Eq in He. by injection He as <-.
Qed.

Lemma skip_iff_same_rendering_witness :
  FireSet.same_ipt (Some (OHost webserver)) (Some (ONet lan)) = false
  ∧ FireSet.same_ipt (Some (ONet lan)) (Some (OHost webserver)) = false
  ∧ FireSet.splice_host routed_fireset lan_to_lan ∅ webserver
    = OK (FireSet.insert_first_rules webserver ∅)
  ∧ emitted routed_fireset mail_to_web webserver
    = OK (mkLines [" -s 10.0.0.5 -d 1.2.3.10 -j ACCEPT"] [] [])
  ∧ NetObj_ipt (OHost mail) ≠ NetObj_ipt (OHost webserver).
Proof.
  destruct (skip_iff_same_rendering (Some (OHost webserver)) (Some (ONet lan)))
    as (_ & _ & _ & H & _).
  destruct (skip_iff_same_rendering (Some (ONet lan)) (Some (ONet lan)))
    as (_ & _ & _ & _ & _ & _ & Hskip & _).
  destruct (skip_iff_same_rendering (Some (OHost mail)) (Some (OHost webserver)))
    as (_ & _ & _ & _ & _ & _ & _ & Hdiff).
  assert (emitted routed_fireset mail_to_web webserver
          = OK (mkLines [" -s 10.0.0.5 -d 1.2.3.10 -j ACCEPT"] [] [])) as He
    by (vm_compute; reflexivity).
  split; [apply (H webserver lan); reflexivity|].
  split; [apply (H webserver lan); reflexivity|].
  split; [apply Hskip; reflexivity|].
  split; [exact He|].
  apply (Hdiff routed_fireset mail_to_web webserver _ _ _ eq_refl eq_refl He);
    [discriminate|reflexivity|reflexivity].
Defined.

(** C6, as claimed, fails: a pair of two networks is skipped when they
    render alike.  The rule from [lan] to [lan] leaves every chain with
    its first rule, although [webserver] lies in [lan]. *)
Lemma network_pair_skipped :
  let self :=
    fireset [Rule.mk "1" "intra_lan" "lan" "*" "lan" "*" "ACCEPT" "0" ""]
      [fw; webserver] [] clean_status in
  FireSet.same_ipt (Some (ONet lan)) (Some (ONet lan)) = true
  ∧ FireSet.host_in webserver (Some (ONet lan)) = OK true
  ∧ ∃ rd ch, FireSet.compile_rules 1000 self = OK rd
      ∧ rd !! "webserver" = Some ch
      ∧ INPUT ch = [stateful_accept] ∧ OUTPUT ch = [stateful_accept].
Proof.
  intros self. split; [by vm_compute|]. split; [by vm_compute|].
  eexists _, _. split; [by vm_compute|]. split; [by vm_compute|].
  split; by vm_compute.
Qed.

(** ** Hosts with several interface rows *)

Lemma emitted_wildcard_dst (self : FireSet.t) (c : Compiled) (h : Host.t) (e : Lines) :
  c_dst c = None → emitted self c h = OK e → to_INPUT e = input_lines c h.
Proof.
  intros Hd. unfold emitted, FireSet.same_ipt. rewrite Hd.
  destruct (c_src c); simpl; intros H.
  - apply bind_OK in H as (from_me & _ & H).
    by apply bind_OK in H as (forw & _ & [= <-]).
  - by apply bind_OK in H as (forw & _ & [= <-]).
Qed.

Lemma emitted_wildcard_src (self : FireSet.t) (c : Compiled) (h : Host.t) (e : Lines) :
  c_src c = None → emitted self c h = OK e → to_OUTPUT e = output_lines c h.
Proof.
  intros Hs. unfold emitted, FireSet.same_ipt. rewrite Hs. simpl. intros H.
  apply bind_OK in H as (to_me & _ & H).
  by apply bind_OK in H as (forw & _ & [= <-]).
Qed.

Lemma concat_fmap_Forall2 {A B : Type} (f : A → list B) (g : Lines → list B)
    (rows : list A) (es : list Lines) :
  Forall2 (λ h e, g e = f h) rows es →
  concat (g <$> es) = rows ≫= f.
Proof.
  induction 1 as [|h e rows es H _ IH]; [done|].
  rewrite fmap_cons, bind_cons. simpl. by rewrite H, IH.
Qed.

Lemma bind_no_log (c : Compiled) (f : Compiled → Host.t → list string)
    (rows : list Host.t) :
  (∀ h, f c h = [action_line c]) →
  rows ≫= f c = replicate (length rows) (action_line c).
Proof.
  intros Hf. induction rows as [|h rows IH]; [done|].
  rewrite bind_cons, Hf, IH. done.
Qed.

(** For a tuple whose destination is the wildcard, the loop over the
    hosts table appends its INPUT lines to the one INPUT list of a
    hostname once per row of that hostname: with [n] rows the action line
    is appended [n] times, and with logging off the appended segment is
    [n] copies of it.  Likewise for OUTPUT when the source is the
    wildcard. *)
Theorem splice_tuple_wildcard (self : FireSet.t) (c : Compiled)
    (rd rd' : gmap string Chains) (hn : string) :
  FireSet.splice_tuple self rd c = OK rd' →
  rows_of hn (FireSet.hosts self) ≠ [] →
  ∃ ch0 ch', start rd hn (FireSet.hosts self) = Some ch0
    ∧ rd' !! hn = Some ch'
    ∧ (c_dst c = None →
         INPUT ch' = INPUT ch0 ++ (rows_of hn (FireSet.hosts self) ≫= input_lines c)
         ∧ (c_log_val c = 0 →
              INPUT ch' = INPUT ch0 ++
                replicate (length (rows_of hn (FireSet.hosts self))) (action_line c)))
    ∧ (c_src c = None →
         OUTPUT ch' = OUTPUT ch0 ++ (rows_of hn (FireSet.hosts self) ≫= output_lines c)
         ∧ (c_log_val c = 0 →
              OUTPUT ch' = OUTPUT ch0 ++
                replicate (length (rows_of hn (FireSet.hosts self))) (action_line c))).
Proof.
  intros H Hrows. unfold FireSet.splice_tuple in H.
  destruct (splice_hosts_lookup self c _ _ _ hn H) as (es & Hes & Hlook).
  assert (∃ ch0, start rd hn (FireSet.hosts self) = Some ch0) as [ch0 Hch0].
  { unfold start. destruct (rd !! hn); [eauto|].
    destruct (rows_of hn (FireSet.hosts self)); [done|]. simpl. eauto. }
  rewrite Hch0 in Hlook. simpl in Hlook.
  exists ch0, (add_all es ch0). split; [done|]. split; [done|].
  destruct (add_all_chains es ch0) as (-> & -> & _).
  apply mapM_OK_Forall2 in Hes.
  split; intros Hw.
  - assert (concat (to_INPUT <$> es)
            = rows_of hn (FireSet.hosts self) ≫= input_lines c) as ->.
    { apply concat_fmap_Forall2. eapply Forall2_impl; [exact Hes|].
      intros h e. by apply emitted_wildcard_dst. }
    split; [done|]. intros Hlog. f_equal. apply bind_no_log.
    intros h. unfold input_lines. by rewrite Hlog.
  - assert (concat (to_OUTPUT <$> es)
            = rows_of hn (FireSet.hosts self) ≫= output_lines c) as ->.
    { apply concat_fmap_Forall2. eapply Forall2_impl; [exact Hes|].
      intros h e. by apply emitted_wildcard_src. }
    split; [done|]. intros Hlog. f_equal. apply bind_no_log.
    intros h. unfold output_lines. by rewrite Hlog.
Qed.

Lemma splice_tuple_wildcard_example :
  (∃ rd' ch', FireSet.splice_tuple gw_fireset ∅ drop_all = OK rd'
     ∧ rd' !! "gw" = Some ch'
     ∧ INPUT ch' =
         [stateful_accept;
          "-i eth0  -j LOG --log-level 4 --log-prefix drop_all"; " -j DROP";
          "-i eth1  -j LOG --log-level 4 --log-prefix drop_all"; " -j DROP"]
     ∧ OUTPUT ch' =
         [stateful_accept;
          " -j LOG --log-level 4 --log-prefix drop_all"; " -j DROP";
          " -j LOG --log-level 4 --log-prefix drop_all"; " -j DROP"])
  ∧ (∃ rd' ch', FireSet.splice_tuple gw_fireset ∅ drop_quiet = OK rd'
       ∧ rd' !! "gw" = Some ch'
       ∧ INPUT ch' = [stateful_accept; " -j DROP"; " -j DROP"]
       ∧ OUTPUT ch' = [stateful_accept; " -j DROP"; " -j DROP"]).
Proof.
  split.
  - destruct (FireSet.splice_tuple gw_fireset ∅ drop_all) as [rd'|e] eqn:E;
      [|vm_compute in E; discriminate].
    destruct (splice_tuple_wildcard gw_fireset drop_all ∅ rd' "gw" E)
      as (ch0 & ch' & H0 & Hrd' & Hin & Hout); [discriminate|].
    vm_compute in H0. injection H0 as <-.
    exists rd', ch'. split; [reflexivity|]. split; [exact Hrd'|].
    split; [exact (proj1 (Hin eq_refl))|exact (proj1 (Hout eq_refl))].
  - destruct (FireSet.splice_tuple gw_fireset ∅ drop_quiet) as [rd'|e] eqn:E;
      [|vm_compute in E; discriminate].
    destruct (splice_tuple_wildcard gw_fireset drop_quiet ∅ rd' "gw" E)
      as (ch0 & ch' & H0 & Hrd' & Hin & Hout); [discriminate|].
    vm_compute in H0. injection H0 as <-.
    exists rd', ch'. split; [reflexivity|]. split; [exact Hrd'|].
    split; [exact (proj2 (Hin eq_refl) eq_refl)|exact (proj2 (Hout eq_refl) eq_refl)].
Defined.

(** ** From rules to tuples *)



Lemma py_dict_lookup_Some {V : Type} (pairs : list (string * V)) (k : string) (v : V) :
  py_dict pairs !! k = Some v → (k, v) ∈ pairs.
Proof.
  unfold py_dict.
  assert (∀ m : gmap string V,
    foldl (λ m kv, <[kv.1 := kv.2]> m) m pairs !! k = Some v →
    (k, v) ∈ pairs ∨ m !! k = Some v) as H.
  { induction pairs as [|[k' v'] pairs IH]; intros m Hm; simpl in Hm; [by right|].
    destruct (IH _ Hm) as [Hin|Hm'].
    - left. by right.
    - apply lookup_insert_Some in Hm' as [[<- <-]|[_ Hm']]; [|by right].
      left. by left. }
  intros Hk. destruct (H ∅ Hk) as [?|Hm]; [done|].
  by rewrite lookup_empty in Hm.
Qed.

(** No key of the host-interface dictionary is the wildcard name: every
    key holds a colon. *)
Lemma host_key_not_wildcard (self : FireSet.t) :
  FireSet.host_by_name_col_iface self !! "*" = None.
Proof.
  destruct (FireSet.host_by_name_col_iface self !! "*") as [h|] eqn:E; [|done].
  apply py_dict_lookup_Some in E.
  apply list_elem_of_fmap in E as (h' & [= E _] & _).
  assert (has_char ":" "*" = true) as Hc; [|done].
  rewrite E, has_char_app. simpl. apply orb_true_r.
Qed.

(** The wildcard name resolves to the single endpoint [None], unless a
    network or a host group is itself called by that name. *)
Lemma res_wildcard (self : FireSet.t) (fhg : gmap string (list NetObj)) :
  FireSet.net_by_name self !! "*" = None → fhg !! "*" = None →
  FireSet.res self fhg "*" = OK [None].
Proof.
  intros Hn Hg. unfold FireSet.res.
  by rewrite host_key_not_wildcard, Hn, Hg.
Qed.






(** ** The chains of a hostname after a whole compilation *)

Lemma concat_fmap_concat {A B : Type} (f : A → list B) (ls : list (list A)) :
  concat (f <$> concat ls) = concat ((λ l, concat (f <$> l)) <$> ls).
Proof.
  induction ls as [|l ls IH]; [done|].
  simpl. by rewrite fmap_app, concat_app, IH.
Qed.

(** When a tuple is compiled, the entry of a hostname is the first rules
    of its first row followed by what each tuple, in order, emits for its
    rows, in order. *)
Lemma compile_rules_chains (depth : nat) (self : FireSet.t)
    (rd : gmap string Chains) (fhg : gmap string (list NetObj))
    (c : Compiled) (cs : list Compiled) (hn : string) (h0 : Host.t) :
  FireSet.compile_rules depth self = OK rd →
  FireSet.flat_hg depth self = OK fhg →
  FireSet.compiled self fhg = OK (c :: cs) →
  head (rows_of hn (FireSet.hosts self)) = Some h0 →
  ∃ ess,
    Forall2 (λ c es,
      mapM (emitted self c) (rows_of hn (FireSet.hosts self)) = OK es)
      (c :: cs) ess
    ∧ rd !! hn = Some (add_all (concat ess) (FireSet.first_rules h0)).
Proof.
  intros Hrd Hf Hc Hh.
  apply compile_rules_OK in Hrd as (_ & fhg' & cs' & Hf' & Hc' & Hfold).
  rewrite Hf in Hf'. injection Hf' as <-. rewrite Hc in Hc'. injection Hc' as <-.
  destruct (splice_tuples_lookup self _ _ _ hn Hfold) as (ess & Hess & Hlook).
  exists ess. split; [done|]. rewrite Hlook. unfold start.
  by rewrite lookup_empty, Hh.
Qed.

(** The INPUT chain of a hostname: the stateful accept line, then one
    segment per compiled tuple; the segment of a tuple whose destination
    is the wildcard holds its lines once per row of the hostname. *)
Lemma compile_rules_INPUT_wildcard (depth : nat) (self : FireSet.t)
    (rd : gmap string Chains) (fhg : gmap string (list NetObj))
    (c : Compiled) (cs : list Compiled) (hn : string) (h0 : Host.t) :
  FireSet.compile_rules depth self = OK rd →
  FireSet.flat_hg depth self = OK fhg →
  FireSet.compiled self fhg = OK (c :: cs) →
  head (rows_of hn (FireSet.hosts self)) = Some h0 →
  ∃ ch segs, rd !! hn = Some ch
    ∧ INPUT ch = stateful_accept :: concat segs
    ∧ Forall2 (λ c seg,
        c_dst c = None → seg = rows_of hn (FireSet.hosts self) ≫= input_lines c)
        (c :: cs) segs.
Proof.
  intros Hrd Hf Hc Hh.
  destruct (compile_rules_chains _ _ _ _ _ _ _ _ Hrd Hf Hc Hh) as (ess & Hess & Hlook).
  exists (add_all (concat ess) (FireSet.first_rules h0)),
    ((λ es, concat (to_INPUT <$> es)) <$> ess).
  split; [done|]. split.
  - destruct (add_all_chains (concat ess) (FireSet.first_rules h0)) as (-> & _).
    simpl. by rewrite concat_fmap_concat.
  - apply Forall2_fmap_r. eapply Forall2_impl; [exact Hess|].
    intros c' es Hes Hd. apply concat_fmap_Forall2.
    apply mapM_OK_Forall2 in Hes. eapply Forall2_impl; [exact Hes|].
    intros h e. by apply emitted_wildcard_dst.
Qed.






(** * Further properties of the code *)

(** ** Address arithmetic *)

Lemma netmask_testbit (n i : Z) :
  0 ≤ n ≤ 32 → 0 ≤ i →
  Z.testbit (netmask n) i = (32 - n <=? i) && (i <? 32).
Proof.
  intros Hn Hi. unfold netmask. rewrite Z.shiftl_spec by done.
  destruct (Z.leb_spec (32 - n) i), (Z.ltb_spec i 32); simpl.
  - apply Z.ones_spec_low. lia.
  - apply Z.ones_spec_high. lia.
  - apply Z.testbit_neg_r. lia.
  - apply Z.testbit_neg_r. lia.
Qed.

(** Masking by a longer prefix first changes nothing for a shorter one. *)
Lemma netmask_absorb (x p1 p2 : Z) :
  0 ≤ p1 → p1 ≤ p2 → p2 ≤ 32 →
  Z.land (Z.land x (netmask p2)) (netmask p1) = Z.land x (netmask p1).
Proof.
  intros H1 H12 H2. apply Z.bits_inj'. intros i Hi.
  rewrite !Z.land_spec, !netmask_testbit by lia.
  destruct (Z.testbit x i), (Z.leb_spec (32 - p2) i), (Z.leb_spec (32 - p1) i),
    (Z.ltb_spec i 32); simpl; (done || lia).
Qed.

Lemma digits_val_go_no_slash (acc : N) (s : string) (n : N) :
  digits_val_go acc s = Some n → has_char "/" s = false.
Proof.
  revert acc. induction s as [|a s IH]; intros acc; simpl; [done|].
  destruct (Ascii.is_nat a) as [d|] eqn:Ed; [|discriminate].
  intros H. rewrite (IH _ H), orb_false_r.
  destruct (Ascii.eqb_spec a "/") as [->|]; [discriminate|done].
Qed.

Lemma digits_val_no_slash (s : string) (n : N) :
  digits_val s = Some n → has_char "/" s = false.
Proof.
  unfold digits_val. destruct s; [discriminate|]. apply digits_val_go_no_slash.
Qed.

Lemma canonical_dec_Some (hi : N) (s : string) (v : Z) :
  canonical_dec hi s = Some v →
  0 ≤ v ≤ Z.of_N hi ∧ s = pretty v ∧ has_char "/" s = false.
Proof.
  unfold canonical_dec. destruct (digits_val s) as [n|] eqn:E; [|discriminate].
  destruct (N.leb_spec n hi); simpl; [|discriminate].
  destruct (String.eqb_spec (pretty n) s) as [<-|]; [|discriminate].
  intros [= <-]. split; [lia|]. split; [|by eapply digits_val_no_slash].
  by destruct n.
Qed.

Lemma ipv4_of_string_range (a : string) (x : Z) :
  ipv4_of_string a = Some x → 0 ≤ x < 4294967296.
Proof.
  unfold ipv4_of_string.
  destruct (split_on "." a) as [|a1 [|a2 [|a3 [|a4 [|? ?]]]]]; try discriminate.
  destruct (canonical_dec 255 a1) as [v1|] eqn:E1; [|discriminate].
  destruct (canonical_dec 255 a2) as [v2|] eqn:E2; [|discriminate].
  destruct (canonical_dec 255 a3) as [v3|] eqn:E3; [|discriminate].
  destruct (canonical_dec 255 a4) as [v4|] eqn:E4; [|discriminate].
  apply canonical_dec_Some in E1 as [? _], E2 as [? _], E3 as [? _], E4 as [? _].
  intros [= <-]. lia.
Qed.

Lemma split_first_has_char (c : ascii) (s : string) :
  match split_first c s with
  | (hd, None) => hd = s ∧ has_char c s = false
  | (hd, Some tl) => s = hd +:+ String c tl ∧ has_char c hd = false
  end.
Proof.
  induction s as [|a s IH]; simpl; [done|].
  destruct (Ascii.eqb_spec a c) as [->|Hne].
  - done.
  - apply Ascii.eqb_neq in Hne.
    destruct (split_first c s) as [hd [tl|]]; destruct IH as [-> IH];
      simpl; rewrite ?Hne; by split.
Qed.

(** What a successful [net_addr] tells about its arguments. *)
Lemma net_addr_OK (a : string) (n : Z) (b : string) :
  net_addr a n = OK b →
  ∃ x, ipv4_of_string a = Some x ∧ 0 ≤ x < 4294967296 ∧ 0 ≤ n ≤ 32
       ∧ b = string_of_ipv4 (Z.land x (netmask n)).
Proof.
  unfold net_addr, IPNetwork. intros H.
  pose proof (split_first_has_char "/" (a +:+ "/" +:+ pretty n)) as Hsp.
  destruct (split_first "/" (a +:+ "/" +:+ pretty n)) as [hd [tl|]].
  - destruct Hsp as [Heq Hhd].
    destruct (ipv4_of_string hd) as [x|] eqn:Ex; [|discriminate].
    destruct (canonical_dec 32 tl) as [v|] eqn:Ev; [|discriminate].
    injection H as <-.
    apply canonical_dec_Some in Ev as (Hv & -> & Hns).
    apply (app_slash_inj a hd (pretty n) (pretty v)) in Heq as [<- Hp];
      [|apply pretty_Z_no_slash|done].
    apply (inj pretty) in Hp as <-.
    exists x. split; [done|]. split; [by eapply ipv4_of_string_range|].
    split; [done|done].
  - destruct Hsp as [_ Hno]. rewrite has_char_app in Hno. simpl in Hno.
    by rewrite orb_true_r in Hno.
Qed.

(** X1. The network address is a fixed point: computing it again from
    the result, with the same prefix length, gives the result back. *)
Theorem net_addr_idempotent (a : string) (n : Z) (b : string) :
  net_addr a n = OK b → net_addr b n = OK b.
Proof.
  intros H. apply net_addr_OK in H as (x & _ & Hx & Hn & ->).
  rewrite (net_addr_ipv4 _ (Z.land x (netmask n)) n).
  - by rewrite <- Z.land_assoc, Z.land_diag.
  - split; [|done]. apply masked_range; lia.
  - done.
Qed.

Lemma net_addr_idempotent_witness :
  net_addr "1.2.3.10" 24 = OK "1.2.3.0" ∧ net_addr "1.2.3.0" 24 = OK "1.2.3.0".
Proof.
  assert (net_addr "1.2.3.10" 24 = OK "1.2.3.0") as H by (vm_compute; reflexivity).
  split; [exact H|exact (net_addr_idempotent _ _ _ H)].
Defined.



(** X3. A host lies in its own directly connected network: whenever
    [mynetwork] can be built, that network contains the host, and it is
    canonical. *)
Theorem mynetwork_contains_host (h : Host.t) (n : Network.t) :
  mynetwork h = OK n →
  Network_contains n (Some (OHost h)) = OK true
  ∧ py_int (Host.masklen h) = OK (Network.masklen n)
  ∧ net_addr (Host.ip_addr h) (Network.masklen n) = OK (Network.ip_addr n).
Proof.
  unfold mynetwork, Network.init. intros H.
  apply bind_OK in H as (m & Hm & H).
  apply bind_OK in H as (real & Hreal & [= <-]). simpl.
  rewrite Hreal. simpl. by rewrite String.eqb_refl.
Qed.

Lemma mynetwork_contains_host_witness :
  ∃ n, mynetwork webserver = OK n
       ∧ Network.ipt n = "1.2.3.0/24"
       ∧ Network_contains n (Some (OHost webserver)) = OK true.
Proof.
  destruct (mynetwork webserver) as [n|e] eqn:E; [|vm_compute in E; discriminate].
  exists n. split; [reflexivity|].
  split; [|exact (proj1 (mynetwork_contains_host _ _ E))].
  vm_compute in E. by injection E as <-.
Defined.

Lemma Network_contains_true_inv (N : Network.t) (o : NetObj) :
  Network_contains N (Some o) = OK true →
  ∃ x, ipv4_of_string (NetObj_ip_addr o) = Some x ∧ 0 ≤ x < 4294967296
       ∧ 0 ≤ Network.masklen N ≤ 32
       ∧ Network.ip_addr N = string_of_ipv4 (Z.land x (netmask (Network.masklen N)))
       ∧ match o with
         | OHost _ => True
         | ONet n => Network.masklen N ≤ Network.masklen n
         end.
Proof.
  destruct o as [h|n].
  - intros H. apply Network_contains_host_true in H.
    apply net_addr_OK in H as (x & Hx & Hr & Hn & E). by exists x.
  - intros H. apply Network_contains_net_true in H as [H Hle].
    apply net_addr_OK in H as (x & Hx & Hr & Hn & E). by exists x.
Qed.

Lemma split_on_no_slash (s : string) :
  Forall (λ p, has_char "/" p = false) (split_on "." s) → has_char "/" s = false.
Proof.
  induction s as [|c s IH]; [done|]. simpl.
  destruct (Ascii.eqb_spec c ".") as [->|Hc].
  - intros H. apply Forall_cons in H as [_ H]. simpl. by apply IH.
  - destruct (split_on "." s) as [|w ws].
    + intros H. apply Forall_cons in H as [H _]. simpl in H.
      apply orb_false_iff in H as [-> _]. simpl. by apply IH.
    + intros H. apply Forall_cons in H as [Hw Hws]. simpl in Hw.
      apply orb_false_iff in Hw as [-> Hw]. simpl. apply IH. by constructor.
Qed.

Lemma ipv4_of_string_no_slash (a : string) (x : Z) :
  ipv4_of_string a = Some x → has_char "/" a = false.
Proof.
  unfold ipv4_of_string. intros Hx. apply split_on_no_slash.
  destruct (split_on "." a) as [|a1 [|a2 [|a3 [|a4 [|? ?]]]]]; try discriminate.
  destruct (canonical_dec 255 a1) as [v1|] eqn:E1; [|discriminate].
  destruct (canonical_dec 255 a2) as [v2|] eqn:E2; [|discriminate].
  destruct (canonical_dec 255 a3) as [v3|] eqn:E3; [|discriminate].
  destruct (canonical_dec 255 a4) as [v4|] eqn:E4; [|discriminate].
  apply canonical_dec_Some in E1 as (_ & _ & ?), E2 as (_ & _ & ?),
    E3 as (_ & _ & ?), E4 as (_ & _ & ?).
  repeat constructor; done.
Qed.

(** X4. Containment is transitive: what a network contains (a host or a
    network) is contained in every network that contains that network. *)
Theorem Network_contains_trans (N1 N2 : Network.t) (o : NetObj) :
  Network_contains N1 (Some (ONet N2)) = OK true →
  Network_contains N2 (Some o) = OK true →
  Network_contains N1 (Some o) = OK true.
Proof.
  intros H12 H2o.
  apply Network_contains_true_inv in H12
    as (x2 & Hx2 & Hr2 & Hn1 & E1 & Hle). simpl in Hx2.
  apply Network_contains_true_inv in H2o as (x & Hx & Hr & Hn2 & E2 & Ho).
  rewrite E2 in Hx2.
  rewrite ipv4_of_string_of_ipv4 in Hx2 by (apply masked_range; lia).
  injection Hx2 as <-.
  rewrite netmask_absorb in E1 by lia.
  assert (net_addr (NetObj_ip_addr o) (Network.masklen N1)
          = OK (Network.ip_addr N1)) as Hnet.
  { unfold net_addr, IPNetwork.
    assert (has_char "/" (NetObj_ip_addr o) = false) as Hns
      by (by eapply ipv4_of_string_no_slash).
    rewrite split_first_slash by done. rewrite Hx.
    rewrite prefix_pretty by lia. simpl. by rewrite E1. }
  destruct o as [h|n]; simpl in *.
  - rewrite Hnet. simpl. by rewrite String.eqb_refl.
  - rewrite Hnet. simpl. rewrite String.eqb_refl. simpl.
    f_equal. apply Z.leb_le. lia.
Qed.

Lemma Network_contains_trans_witness :
  Network_contains internet (Some (ONet lan)) = OK true
  ∧ Network_contains lan (Some (OHost webserver)) = OK true
  ∧ Network_contains internet (Some (OHost webserver)) = OK true.
Proof.
  assert (Network_contains internet (Some (ONet lan)) = OK true) as H1
    by (vm_compute; reflexivity).
  assert (Network_contains lan (Some (OHost webserver)) = OK true) as H2
    by (vm_compute; reflexivity).
  split; [exact H1|]. split; [exact H2|].
  exact (Network_contains_trans _ _ _ H1 H2).
Defined.

(** ** Flattening, continued *)

Lemma mapM_ext_OK {A B : Type} (f g : A → result B) (l : list A) (ys : list B) :
  (∀ x y, x ∈ l → f x = OK y → g x = OK y) →
  mapM f l = OK ys → mapM g l = OK ys.
Proof.
  intros Hfg H. apply mapM_OK_Forall2 in H. apply mapM_OK_Forall2.
  induction H as [|x y l ys Hxy _ IH]; constructor.
  - apply Hfg; [by left|done].
  - apply IH. intros x' y' Hx'. apply Hfg. by right.
Qed.

Lemma _flatten_more_depth (_hbn : gmap string (list string)) (d d' : nat)
    (i : string) (li : list string) :
  HostGroup._flatten d _hbn i = OK li → (d ≤ d')%nat →
  HostGroup._flatten d' _hbn i = OK li.
Proof.
  revert d' i li. induction d as [|d IH]; intros d' i li H Hd; [discriminate|].
  destruct d' as [|d']; [lia|]. simpl in *.
  destruct (_hbn !! i) as [childs|]; [|done].
  apply bind_OK in H as (ls & Hls & [= <-]).
  rewrite (mapM_ext_OK _ (HostGroup._flatten d' _hbn) _ _ ltac:(intros x y _ Hx; apply (IH d' x y Hx); lia) Hls).
  done.
Qed.

(** X5. The recursion depth only decides whether flattening returns:
    a result obtained within some depth is the result under every larger
    depth, for [_flatten] on a name and for [flat] on a group object. *)
Theorem flat_more_depth (_hbn : gmap string (list string))
    (host_by_name : gmap string Host.t) (net_by_name : gmap string Network.t)
    (self : HostGroup.t) (d d' : nat) :
  (d ≤ d')%nat →
  (∀ i li, HostGroup._flatten d _hbn i = OK li →
           HostGroup._flatten d' _hbn i = OK li)
  ∧ (∀ objs, HostGroup.flat d self host_by_name net_by_name _hbn = OK objs →
             HostGroup.flat d' self host_by_name net_by_name _hbn = OK objs).
Proof.
  intros Hd. split.
  - intros i li H. by eapply _flatten_more_depth.
  - unfold HostGroup.flat, HostGroup._flatten_self. intros objs H.
    apply bind_OK in H as (li & Hli & H).
    destruct d as [|d]; [discriminate|]. destruct d' as [|d']; [lia|].
    apply bind_OK in Hli as (ls & Hls & [= <-]).
    rewrite (mapM_ext_OK _ (HostGroup._flatten d' _hbn) _ _
               ltac:(intros x y _ Hx; apply (_flatten_more_depth _ d d' x y Hx); lia)
               Hls).
    done.
Qed.

Lemma flat_more_depth_witness :
  HostGroup._flatten 2 admins_hbn "admins" = OK ["alice:eth0"; "bob:eth0"]
  ∧ HostGroup._flatten 1000 admins_hbn "admins" = OK ["alice:eth0"; "bob:eth0"].
Proof.
  assert (HostGroup._flatten 2 admins_hbn "admins" = OK ["alice:eth0"; "bob:eth0"])
    as H by (vm_compute; reflexivity).
  split; [exact H|].
  apply (proj1 (flat_more_depth admins_hbn ∅ ∅ admins 2 1000 ltac:(lia)) _ _ H).
Defined.

Lemma mapM_OK_Forall {A B : Type} (f : A → result B) (P : B → Prop)
    (l : list A) (ys : list B) :
  mapM f l = OK ys → (∀ x y, x ∈ l → f x = OK y → P y) → Forall P ys.
Proof.
  intros H. apply mapM_OK_Forall2 in H.
  induction H as [|x y l ys Hxy _ IH]; intros HP; [constructor|].
  constructor.
  - apply (HP x); [by left|done].
  - apply IH. intros x' y' Hx'. apply HP. by right.
Qed.

Lemma _flatten_leaves (_hbn : gmap string (list string)) (d : nat) (i : string)
    (li : list string) :
  HostGroup._flatten d _hbn i = OK li → Forall (λ x, _hbn !! x = None) li.
Proof.
  revert i li. induction d as [|d IH]; intros i li H; [discriminate|].
  simpl in H. destruct (_hbn !! i) as [childs|] eqn:Ei.
  - apply bind_OK in H as (ls & Hls & [= <-]). apply Forall_concat.
    eapply mapM_OK_Forall; [exact Hls|]. intros x y _ Hxy. by eapply IH.
  - injection H as <-. by constructor.
Qed.

(** X6. Whatever [flat] returns is made of leaves only: no name of the
    flattened list is a group name, and every object returned is the entry
    of one of those names in the host dictionary or, for a name that is no
    host key, in the network dictionary. *)
Theorem flat_returns_leaves (_hbn : gmap string (list string))
    (host_by_name : gmap string Host.t) (net_by_name : gmap string Network.t)
    (self : HostGroup.t) (d : nat) (objs : list NetObj) :
  HostGroup.flat d self host_by_name net_by_name _hbn = OK objs →
  ∃ li, HostGroup._flatten_self d _hbn self = OK li
    ∧ Forall (λ x, _hbn !! x = None) li
    ∧ Forall2 (λ x obj,
        match obj with
        | OHost h => host_by_name !! x = Some h
        | ONet n => host_by_name !! x = None ∧ net_by_name !! x = Some n
        end) li objs.
Proof.
  unfold HostGroup.flat. intros H. apply bind_OK in H as (li & Hli & H).
  exists li. split; [done|]. split.
  - unfold HostGroup._flatten_self in Hli. destruct d as [|d]; [discriminate|].
    apply bind_OK in Hli as (ls & Hls & [= <-]). apply Forall_concat.
    eapply mapM_OK_Forall; [exact Hls|]. intros x y _ Hxy.
    by eapply _flatten_leaves.
  - apply mapM_OK_Forall2 in H. eapply Forall2_impl; [exact H|].
    intros x obj. unfold HostGroup.res.
    destruct (host_by_name !! x) as [h|]; [by intros [= <-]|].
    destruct (net_by_name !! x) as [n|]; [by intros [= <-]|discriminate].
Qed.

Lemma flat_returns_leaves_witness :
  ∃ li, HostGroup._flatten_self 2 admins_hbn admins = OK li
    ∧ Forall (λ x, admins_hbn !! x = None) li.
Proof.
  assert (HostGroup.flat 2 admins (py_dict [("alice:eth0", alice); ("bob:eth0", bob)])
            ∅ admins_hbn = OK [OHost alice; OHost bob]) as H
    by (vm_compute; reflexivity).
  destruct (flat_returns_leaves _ _ _ _ _ _ H) as (li & Hli & Hleaf & _).
  by exists li.
Defined.

Lemma concat_Permutation {A : Type} (ls ls' : list (list A)) :
  ls ≡ₚ ls' → concat ls ≡ₚ concat ls'.
Proof.
  induction 1 as [|l ls ls' _ IH|l1 l2 ls|ls1 ls2 ls3 _ IH1 _ IH2]; simpl.
  - done.
  - by rewrite IH.
  - rewrite !app_assoc. by rewrite (Permutation_app_comm l2 l1).
  - by rewrite IH1.
Qed.

Lemma concat_Forall2_Permutation {A : Type} (ls ls' : list (list A)) :
  Forall2 (≡ₚ) ls ls' → concat ls ≡ₚ concat ls'.
Proof.
  induction 1 as [|l l' ls ls' Hl _ IH]; simpl; [done|]. by rewrite Hl, IH.
Qed.

Lemma mapM_Permutation {A B : Type} (f : A → result B) (l l' : list A)
    (ys : list B) :
  l ≡ₚ l' → mapM f l = OK ys → ∃ ys', mapM f l' = OK ys' ∧ ys ≡ₚ ys'.
Proof.
  intros Hp. revert ys.
  induction Hp as [|x l l' _ IH|x1 x2 l|l1 l2 l3 _ IH1 _ IH2]; intros ys H.
  - exists ys. by split.
  - simpl in H. apply bind_OK in H as (y & Hy & H).
    apply bind_OK in H as (ys0 & Hys0 & [= <-]).
    destruct (IH _ Hys0) as (ys' & Hys' & Hperm).
    exists (y :: ys'). simpl. rewrite Hy, Hys'. split; [done|by constructor].
  - simpl in H. apply bind_OK in H as (y2 & Hy2 & H).
    apply bind_OK in H as (ys0 & H & [= <-]).
    apply bind_OK in H as (y1 & Hy1 & H).
    apply bind_OK in H as (ys1 & Hys1 & [= <-]).
    exists (y1 :: y2 :: ys1). simpl. rewrite Hy1, Hy2, Hys1.
    split; [done|constructor].
  - destruct (IH1 _ H) as (ys2 & H2 & Hp2).
    destruct (IH2 _ H2) as (ys3 & H3 & Hp3).
    exists ys3. split; [done|by etrans].
Qed.

Lemma mapM_related {A B : Type} (R : B → B → Prop) (f f' : A → result B)
    (l : list A) (ys : list B) :
  (∀ x y, f x = OK y → ∃ y', f' x = OK y' ∧ R y y') →
  mapM f l = OK ys → ∃ ys', mapM f' l = OK ys' ∧ Forall2 R ys ys'.
Proof.
  intros Hff. revert ys. induction l as [|x l IH]; intros ys H.
  - injection H as <-. exists []. by split.
  - simpl in H. apply bind_OK in H as (y & Hy & H).
    apply bind_OK in H as (ys0 & Hys0 & [= <-]).
    destruct (Hff _ _ Hy) as (y' & Hy' & HR).
    destruct (IH _ Hys0) as (ys' & Hys' & HF).
    exists (y' :: ys'). simpl. rewrite Hy', Hys'. split; [done|by constructor].
Qed.


Lemma _flatten_reordered (_hbn _hbn' : gmap string (list string)) (d : nat)
    (i : string) (li : list string) :
  same_children _hbn _hbn' →
  HostGroup._flatten d _hbn i = OK li →
  ∃ li', HostGroup._flatten d _hbn' i = OK li' ∧ li ≡ₚ li'.
Proof.
  intros Hsame. revert i li. induction d as [|d IH]; intros i li H; [discriminate|].
  simpl in *. pose proof (Hsame i) as Hi.
  destruct Hi as [childs childs' Hc|].
  - apply bind_OK in H as (ls & Hls & [= <-]).
    destruct (mapM_related (≡ₚ) _ (HostGroup._flatten d _hbn') _ _ IH Hls)
      as (ls1 & Hls1 & HF).
    destruct (mapM_Permutation _ _ _ _ Hc Hls1) as (ls2 & Hls2 & Hp).
    exists (concat ls2). rewrite Hls2. split; [done|].
    rewrite (concat_Forall2_Permutation _ _ HF). by apply concat_Permutation.
  - injection H as <-. by exists [i].
Qed.

(** X7. The leaves of a group do not depend on the order of children:
    when the children of the group object and of every group of the
    dictionary are reordered, flattening returns the same leaf names up
    to order, and [flat] the same objects up to order. *)
Theorem flat_reordered (_hbn _hbn' : gmap string (list string))
    (host_by_name : gmap string Host.t) (net_by_name : gmap string Network.t)
    (self self' : HostGroup.t) (d : nat) :
  same_children _hbn _hbn' →
  HostGroup.childs self ≡ₚ HostGroup.childs self' →
  (∀ li, HostGroup._flatten_self d _hbn self = OK li →
     ∃ li', HostGroup._flatten_self d _hbn' self' = OK li' ∧ li ≡ₚ li')
  ∧ (∀ objs, HostGroup.flat d self host_by_name net_by_name _hbn = OK objs →
       ∃ objs', HostGroup.flat d self' host_by_name net_by_name _hbn' = OK objs'
         ∧ objs ≡ₚ objs').
Proof.
  intros Hsame Hc.
  assert (∀ li, HostGroup._flatten_self d _hbn self = OK li →
     ∃ li', HostGroup._flatten_self d _hbn' self' = OK li' ∧ li ≡ₚ li') as Hflat.
  { unfold HostGroup._flatten_self. destruct d as [|d]; [discriminate|].
    intros li H. apply bind_OK in H as (ls & Hls & [= <-]).
    destruct (mapM_related (≡ₚ) _ (HostGroup._flatten d _hbn') _ _
                (λ x y, _flatten_reordered _ _ d x y Hsame) Hls)
      as (ls1 & Hls1 & HF).
    destruct (mapM_Permutation _ _ _ _ Hc Hls1) as (ls2 & Hls2 & Hp).
    exists (concat ls2). rewrite Hls2. split; [done|].
    rewrite (concat_Forall2_Permutation _ _ HF). by apply concat_Permutation. }
  split; [exact Hflat|].
  unfold HostGroup.flat. intros objs H. apply bind_OK in H as (li & Hli & H).
  destruct (Hflat _ Hli) as (li' & -> & Hp). simpl.
  by apply (mapM_Permutation _ li li').
Qed.

Lemma flat_reordered_witness :
  ∃ objs', HostGroup.flat 2 (HostGroup.mk "admins" ["bob:eth0"; "alice:eth0"])
             (py_dict [("alice:eth0", alice); ("bob:eth0", bob)]) ∅ admins_hbn
           = OK objs'
    ∧ [OHost alice; OHost bob] ≡ₚ objs'.
Proof.
  assert (HostGroup.flat 2 admins (py_dict [("alice:eth0", alice); ("bob:eth0", bob)])
            ∅ admins_hbn = OK [OHost alice; OHost bob]) as H
    by (vm_compute; reflexivity).
  refine (proj2 (flat_reordered admins_hbn admins_hbn _ ∅ admins
                   (HostGroup.mk "admins" ["bob:eth0"; "alice:eth0"]) 2 _ _) _ H).
  - intros i. destruct (admins_hbn !! i); by constructor.
  - simpl. apply perm_swap.
Defined.

(** ** Reordering, continued *)

Lemma py_pos_length {A : Type} (l l' : list A) (i : Z) :
  length l = length l' → py_pos l i = py_pos l' i.
Proof. unfold py_pos. by intros ->. Qed.

Lemma py_pos_OK {A : Type} (l : list A) (i : Z) (n : nat) :
  py_pos l i = OK n → (n < length l)%nat.
Proof.
  unfold py_pos.
  destruct (Z.leb_spec 0 i), (Z.ltb_spec i (Z.of_nat (length l))); simpl;
    try (intros [= <-]; lia);
    destruct (Z.leb_spec (- Z.of_nat (length l)) i), (Z.ltb_spec i 0); simpl;
    try discriminate; intros [= <-]; lia.
Qed.

Lemma py_pos_in {A : Type} (l : list A) (i : Z) :
  0 ≤ i < Z.of_nat (length l) → py_pos l i = OK (Z.to_nat i).
Proof.
  intros H. unfold py_pos.
  destruct (Z.leb_spec 0 i), (Z.ltb_spec i (Z.of_nat (length l))); simpl;
    (done || lia).
Qed.

Lemma py_index_in {A : Type} (l : list A) (i : Z) (x : A) :
  0 ≤ i < Z.of_nat (length l) → l !! Z.to_nat i = Some x → py_index l i = OK x.
Proof. intros Hi Hx. unfold py_index. rewrite py_pos_in by done. simpl. by rewrite Hx. Qed.

Lemma py_setitem_in {A : Type} (l : list A) (i : Z) (x : A) :
  0 ≤ i < Z.of_nat (length l) → py_setitem l i x = OK (<[Z.to_nat i := x]> l).
Proof. intros Hi. unfold py_setitem. by rewrite py_pos_in. Qed.

(** What a swap that goes through does. *)
Lemma swap_OK (rules rules' : list Rule.t) (i j : Z) :
  Rules.swap rules i j = OK rules' →
  ∃ ni nj a b, py_pos rules i = OK ni ∧ py_pos rules j = OK nj
    ∧ rules !! nj = Some a ∧ rules !! ni = Some b
    ∧ rules' = <[nj := b]> (<[ni := a]> rules).
Proof.
  unfold Rules.swap, py_index, py_setitem. intros H.
  apply bind_OK in H as (a & Ha & H). apply bind_OK in Ha as (nj & Hnj & Ha).
  apply bind_OK in H as (b & Hb & H). apply bind_OK in Hb as (ni & Hni & Hb).
  apply bind_OK in H as (rules1 & H1 & H).
  apply bind_OK in H1 as (ni' & Hni' & [= <-]).
  apply bind_OK in H as (nj' & Hnj' & [= <-]).
  rewrite Hni in Hni'. injection Hni' as <-.
  rewrite (py_pos_length _ rules) in Hnj' by apply length_insert.
  rewrite Hnj in Hnj'. injection Hnj' as <-.
  destruct (rules !! nj) as [a'|] eqn:Ea; [|discriminate]. injection Ha as ->.
  destruct (rules !! ni) as [b'|] eqn:Eb; [|discriminate]. injection Hb as ->.
  by exists ni, nj, a, b.
Qed.

Lemma swap_Permutation (rules rules' : list Rule.t) (i j : Z) :
  Rules.swap rules i j = OK rules' → rules' ≡ₚ rules.
Proof.
  intros H. apply swap_OK in H as (ni & nj & a & b & _ & _ & Ha & Hb & ->).
  by apply Permutation_insert_swap.
Qed.

(** X8. Reordering never loses, duplicates or invents a rule: whatever
    the index, [moveup] and [movedown] return normally and the rule list
    they leave is a rearrangement of the one they found, of the same
    length; when a swap took place the new list is also the saved one. *)
Theorem reorder_rearranges (self : Rules.t) (rid : Z) :
  (∃ s, Rules.moveup self rid = OK s
        ∧ Rules._list s ≡ₚ Rules._list self
        ∧ length (Rules._list s) = length (Rules._list self)
        ∧ (s = self ∨ Rules.csv s = Rules._list s))
  ∧ (∃ s, Rules.movedown self rid = OK s
          ∧ Rules._list s ≡ₚ Rules._list self
          ∧ length (Rules._list s) = length (Rules._list self)
          ∧ (s = self ∨ Rules.csv s = Rules._list s)).
Proof.
  assert (∀ j, ∃ s,
    try_pass self (rules ←! Rules.swap (Rules._list self) rid j;
                   OK (Rules.save (Rules.mk rules (Rules.csv self)))) = OK s
    ∧ Rules._list s ≡ₚ Rules._list self
    ∧ length (Rules._list s) = length (Rules._list self)
    ∧ (s = self ∨ Rules.csv s = Rules._list s)) as H.
  { intros j. destruct (Rules.swap (Rules._list self) rid j) as [rules|e] eqn:E; simpl.
    - eexists. split; [done|]. simpl. pose proof (swap_Permutation _ _ _ _ E) as Hp.
      split; [done|]. split; [by rewrite Hp|by right].
    - exists self. split; [done|]. split; [done|]. split; [done|by left]. }
  split; apply H.
Qed.

(** X9. Moving a rule up at a position past the first and within the list
    exchanges it with the rule above and leaves the others in place;
    moving down again at the position above restores the list. *)
Theorem moveup_movedown_roundtrip (self : Rules.t) (rid : Z) :
  0 < rid < Z.of_nat (length (Rules._list self)) →
  ∃ s a b,
    Rules.moveup self rid = OK s
    ∧ Rules._list self !! Z.to_nat (rid - 1) = Some a
    ∧ Rules._list self !! Z.to_nat rid = Some b
    ∧ Rules._list s !! Z.to_nat (rid - 1) = Some b
    ∧ Rules._list s !! Z.to_nat rid = Some a
    ∧ (∀ k, k ≠ Z.to_nat (rid - 1) → k ≠ Z.to_nat rid →
         Rules._list s !! k = Rules._list self !! k)
    ∧ Rules.csv s = Rules._list s
    ∧ Rules.movedown s (rid - 1)
      = OK (Rules.mk (Rules._list self) (Rules._list self)).
Proof.
  intros Hrid. destruct self as [l csv]. simpl in *.
  set (i := Z.to_nat rid). set (j := Z.to_nat (rid - 1)).
  assert (i < length l)%nat as Hi by lia.
  assert (j < length l)%nat as Hj by lia.
  assert (j ≠ i) as Hji by lia.
  destruct (lookup_lt_is_Some_2 l i Hi) as [b Hb].
  destruct (lookup_lt_is_Some_2 l j Hj) as [a Ha].
  assert (Rules.swap l rid (rid - 1) = OK (<[j := b]> (<[i := a]> l))) as Hswap.
  { unfold Rules.swap.
    rewrite (py_index_in l (rid - 1) a), (py_index_in l rid b) by (done || lia).
    cbn [bind]. rewrite py_setitem_in by lia. cbn [bind].
    rewrite py_setitem_in by (rewrite length_insert; lia). done. }
  set (l' := <[j := b]> (<[i := a]> l)) in *.
  assert (l' !! j = Some b) as Hl'j.
  { apply list_lookup_insert_eq. by rewrite length_insert. }
  assert (l' !! i = Some a) as Hl'i.
  { unfold l'. rewrite list_lookup_insert_ne by done.
    by apply list_lookup_insert_eq. }
  exists (Rules.mk l' l'), a, b.
  split. { unfold Rules.moveup. simpl. by rewrite Hswap. }
  split; [done|]. split; [done|]. split; [done|]. split; [done|].
  split.
  { intros k Hkj Hki. simpl. unfold l'.
    by rewrite !list_lookup_insert_ne by done. }
  split; [done|].
  unfold Rules.movedown. simpl.
  assert (Rules.swap l' (rid - 1) (rid - 1 + 1) = OK l) as ->; [|done].
  assert (length l' = length l) as Hlen by (unfold l'; by rewrite !length_insert).
  replace (rid - 1 + 1) with rid by lia.
  unfold Rules.swap.
  rewrite (py_index_in l' rid a), (py_index_in l' (rid - 1) b) by (done || lia).
  cbn [bind]. rewrite py_setitem_in by lia. cbn [bind].
  rewrite py_setitem_in by (rewrite length_insert; lia). fold i j.
  f_equal. unfold l'.
  rewrite (list_insert_insert_eq _ j a b).
  rewrite (list_insert_insert_ne _ j i a a) by done.
  rewrite (list_insert_insert_eq _ i b a).
  rewrite (list_insert_id l j a Ha). by apply list_insert_id.
Qed.

Lemma moveup_movedown_roundtrip_witness :
  let self := Rules.mk [rule_a; rule_b; rule_c] [rule_a; rule_b; rule_c] in
  ∃ s, Rules.moveup self 2 = OK s
       ∧ Rules._list s = [rule_a; rule_c; rule_b]
       ∧ Rules.movedown s 1 = OK self.
Proof.
  intros self.
  destruct (moveup_movedown_roundtrip self 2) as (s & a & b & Hup & _ & _ & _ & _ & _ & _ & Hdown).
  { simpl. lia. }
  exists s. split; [exact Hup|]. split; [|exact Hdown].
  vm_compute in Hup. by injection Hup as <-.
Defined.

(** ** Compilation, continued *)


Lemma emitted_not_network_fw (self : FireSet.t) (c : Compiled) (h : Host.t)
    (e : Lines) :
  Host.network_fw h = "0" → emitted self c h = OK e → to_FORWARD e = [].
Proof.
  intros Hfw. unfold emitted, forwards. rewrite Hfw. simpl.
  destruct (FireSet.same_ipt _ _); [by intros [= <-]|].
  intros H. apply bind_OK in H as (to_me & _ & H).
  by apply bind_OK in H as (from_me & _ & [= <-]).
Qed.

Lemma concat_all_nil {A : Type} (ls : list (list A)) :
  Forall (λ l, l = []) ls → concat ls = [].
Proof. induction 1 as [|l ls -> _ IH]; [done|]. by simpl. Qed.

Lemma emitted_rows_no_forward (self : FireSet.t) (c : Compiled)
    (rows : list Host.t) (es : list Lines) :
  (∀ h, h ∈ rows → Host.network_fw h = "0") →
  mapM (emitted self c) rows = OK es →
  Forall (λ e, to_FORWARD e = []) es.
Proof.
  intros Hrows Hes. apply mapM_OK_Forall2 in Hes.
  induction Hes as [|h e hs es Hhe _ IH]; constructor.
  - eapply emitted_not_network_fw; [|exact Hhe]. apply Hrows. by left.
  - apply IH. intros h' Hh'. apply Hrows. by right.
Qed.

(** X11. Forwarding is gated by [network_fw]: in a compiled model, a
    hostname all of whose rows have [network_fw] equal to ['0'] has the
    FORWARD chain [-j DROP] and nothing else. *)
Theorem forward_gated (depth : nat) (self : FireSet.t) (rd : gmap string Chains)
    (hn : string) (ch : Chains) :
  FireSet.compile_rules depth self = OK rd →
  rd !! hn = Some ch →
  (∀ h, h ∈ FireSet.hosts self → Host.hostname h = hn → Host.network_fw h = "0") →
  FORWARD ch = ["-j DROP"].
Proof.
  intros Hrd Hch Hfw.
  apply compile_rules_OK in Hrd as (_ & fhg & cs & _ & _ & Hfold).
  destruct (splice_tuples_lookup self _ _ _ hn Hfold) as (ess & Hess & Hlook).
  assert (∀ h, h ∈ rows_of hn (FireSet.hosts self) → Host.network_fw h = "0")
    as Hrows.
  { intros h Hh. apply list_elem_of_filter in Hh as [Hn Hh]. by apply Hfw. }
  rewrite Hch in Hlook. destruct cs as [|c cs]; [by rewrite lookup_empty in Hlook|].
  unfold start in Hlook. rewrite lookup_empty in Hlook.
  destruct (rows_of hn (FireSet.hosts self)) as [|h0 rows] eqn:Erows; [done|].
  simpl in Hlook. injection Hlook as ->.
  destruct (add_all_chains (concat ess) (FireSet.first_rules h0)) as (_ & _ & ->).
  simpl. rewrite (Hrows h0) by (by left). simpl.
  rewrite concat_all_nil; [done|].
  apply Forall_fmap, Forall_concat.
  clear -Hess Hrows. induction Hess as [|c' es cs' ess' Hes _ IH]; constructor; [|done].
  by eapply emitted_rows_no_forward.
Qed.

Lemma forward_gated_witness :
  ∃ rd ch, FireSet.compile_rules 1000
             (fireset [allow_ping "1"] [fw; webserver] [] clean_status) = OK rd
    ∧ rd !! "webserver" = Some ch ∧ FORWARD ch = ["-j DROP"].
Proof.
  destruct (FireSet.compile_rules 1000
              (fireset [allow_ping "1"] [fw; webserver] [] clean_status))
    as [rd|e] eqn:E; [|vm_compute in E; discriminate].
  destruct (rd !! "webserver") as [ch|] eqn:Ech;
    [|vm_compute in E; injection E as <-; vm_compute in Ech; discriminate].
  exists rd, ch. split; [reflexivity|]. split; [exact Ech|].
  apply (forward_gated _ _ _ _ _ E Ech).
  intros h Hh Hn. simpl in Hh.
  apply elem_of_cons in Hh as [->|Hh]; [discriminate|].
  apply list_elem_of_singleton in Hh as ->. reflexivity.
Defined.

(** A loop run for its exceptions only. *)
Lemma mapM_discard {A B C : Type} (f : A → result B) (l : list A) (k : result C) :
  (_ ←! mapM f l; k) = foldr (λ x acc, _ ←! f x; acc) k l.
Proof.
  induction l as [|x l IH]; [done|]. simpl. rewrite <- IH.
  destruct (f x); simpl; [|done]. by destruct (mapM f l).
Qed.

Lemma compiled_without_disabled (self : FireSet.t) (fhg : gmap string (list NetObj)) :
  FireSet.compiled (without_disabled self) fhg = FireSet.compiled self fhg.
Proof.
  unfold FireSet.compiled, without_disabled. simpl.
  induction (FireSet.rules self) as [|r rs IH]; [done|].
  rewrite filter_cons. destruct (decide (Rule.enabled r ≠ "0")) as [Hr|Hr].
  - simpl.
    change (FireSet.compile_rule (FireSet.mk _ _ _ _ _ _ _ _) fhg r)
      with (FireSet.compile_rule self fhg r).
    destruct (FireSet.compile_rule self fhg r) as [cs|]; simpl; [|done].
    destruct (mapM _ (filter _ rs)) as [css|], (mapM _ rs) as [css'|];
      simpl in *; congruence.
  - apply dec_stable in Hr. simpl.
    rewrite (compile_rule_disabled self fhg r Hr). simpl.
    rewrite IH. by destruct (mapM _ rs).
Qed.

(** X12. Rules that are not enabled play no part: the compilation of a
    model, result or exception, is that of the model with those rules
    removed from the table. *)
Theorem compile_rules_without_disabled (depth : nat) (self : FireSet.t) :
  FireSet.compile_rules depth (without_disabled self)
  = FireSet.compile_rules depth self.
Proof.
  unfold FireSet.compile_rules.
  change (FireSet.save_needed (without_disabled self))
    with (FireSet.save_needed self).
  destruct (FireSet.save_needed self) as [dirty|]; simpl; [|done].
  destruct (py_assert (negb dirty) _); simpl; [|done].
  rewrite !mapM_discard.
  change (FireSet.flat_hg depth (without_disabled self))
    with (FireSet.flat_hg depth self).
  assert (∀ fhg, (cs ←! FireSet.compiled (without_disabled self) fhg;
                  foldM (FireSet.splice_tuple (without_disabled self)) cs ∅)
               = (cs ←! FireSet.compiled self fhg;
                  foldM (FireSet.splice_tuple self) cs ∅)) as Hk.
  { intros fhg. by rewrite compiled_without_disabled. }
  destruct (FireSet.flat_hg depth self) as [fhg|]; simpl.
  - rewrite Hk. unfold without_disabled. simpl.
    induction (FireSet.rules self) as [|r rs IH]; [done|].
    rewrite filter_cons. destruct (decide (Rule.enabled r ≠ "0")) as [Hr|Hr]; simpl.
    + by rewrite IH.
    + apply dec_stable in Hr. rewrite Hr. simpl. exact IH.
  - unfold without_disabled. simpl.
    induction (FireSet.rules self) as [|r rs IH]; [done|].
    rewrite filter_cons. destruct (decide (Rule.enabled r ≠ "0")) as [Hr|Hr]; simpl.
    + by rewrite IH.
    + apply dec_stable in Hr. rewrite Hr. simpl. exact IH.
Qed.

(** X13. A compilation has no partial output: when the rule loop raises
    on some rule of the table, [compile_rules] returns no dictionary. *)
Theorem compile_rules_all_or_nothing (depth : nat) (self : FireSet.t)
    (fhg : gmap string (list NetObj)) (rule : Rule.t) (e : exn)
    (rd : gmap string Chains) :
  FireSet.flat_hg depth self = OK fhg →
  rule ∈ FireSet.rules self →
  FireSet.compile_rule self fhg rule = Raise e →
  FireSet.compile_rules depth self ≠ OK rd.
Proof.
  intros Hf Hr He Hrd.
  apply compile_rules_OK in Hrd as (_ & fhg' & cs & Hf' & Hc & _).
  rewrite Hf in Hf'. injection Hf' as <-.
  unfold FireSet.compiled in Hc. apply bind_OK in Hc as (css & Hcss & _).
  apply mapM_OK_Forall2 in Hcss.
  apply list_elem_of_lookup in Hr as [i Hi].
  destruct (Forall2_lookup_l _ _ _ _ _ Hcss Hi) as (cs' & _ & Hok).
  congruence.
Qed.

Lemma compile_rules_all_or_nothing_witness :
  let bad := Rule.mk "1" "typo" "*" "*" "nowhere" "*" "ACCEPT" "0" "" in
  let self := fireset [allow_ping "1"; bad] [fw; webserver] [] clean_status in
  FireSet.compile_rule self ∅ bad = Raise (Alert "Item nowhere is not defined.")
  ∧ ∀ rd, FireSet.compile_rules 1000 self ≠ OK rd.
Proof.
  intros bad self.
  assert (FireSet.compile_rule self ∅ bad = Raise (Alert "Item nowhere is not defined."))
    as He by (vm_compute; reflexivity).
  split; [exact He|]. intros rd.
  apply (compile_rules_all_or_nothing 1000 self ∅ bad
           (Alert "Item nowhere is not defined.") rd);
    [vm_compute; reflexivity| |exact He].
  right. left.
Defined.

(** ** Rules per host and interface *)

Lemma compile_dict_row_lookup2 (rset : FireSet.RSet)
    (rd rd1 : gmap string (gmap string (list string))) (row : FireSet.HostRow)
    (hostname iface : string) :
  FireSet.compile_dict_row rset rd row = OK rd1 →
  lookup2 rd1 hostname iface =
    if row_for hostname iface row
    then Some (default [] (lookup2 rd hostname iface)
               ++ lines_for hostname iface [row] (FireSet.rset_iter rset))
    else lookup2 rd hostname iface.
Proof.
  destruct row as [h|hn i ipa ? ? ? ? ?]; [done|]. intros [= <-].
  unfold lookup2, lines_for. simpl.
  destruct (decide (hn = hostname)) as [->|Hn].
  - rewrite lookup_insert_eq, bool_decide_true by done. simpl.
    destruct (decide (i = iface)) as [->|Hi].
    + rewrite lookup_insert_eq, bool_decide_true by done.
      rewrite app_nil_r. by destruct (rd !! hostname).
    + rewrite lookup_insert_ne, bool_decide_false by done.
      by destruct (rd !! hostname).
  - rewrite lookup_insert_ne, bool_decide_false by done. done.
Qed.

Lemma lines_for_cons (hostname iface : string) (row : FireSet.HostRow)
    (rows : list FireSet.HostRow) (l : list string) :
  lines_for hostname iface (row :: rows) l
  = lines_for hostname iface [row] l ++ lines_for hostname iface rows l.
Proof. unfold lines_for. simpl. by rewrite app_nil_r. Qed.

Lemma lines_for_none (hostname iface : string) (rows : list FireSet.HostRow)
    (l : list string) :
  existsb (row_for hostname iface) rows = false →
  lines_for hostname iface rows l = [].
Proof.
  induction rows as [|row rows IH]; [done|]. simpl.
  intros [Hr Hrs]%orb_false_iff. rewrite lines_for_cons, (IH Hrs), app_nil_r.
  unfold lines_for. simpl. rewrite Hr. by destruct row.
Qed.

Lemma compile_dict_rows_lookup2 (rset : FireSet.RSet) (rows : list FireSet.HostRow)
    (rd rd' : gmap string (gmap string (list string))) (hostname iface : string) :
  foldM (FireSet.compile_dict_row rset) rows rd = OK rd' →
  lookup2 rd' hostname iface =
    if existsb (row_for hostname iface) rows
    then Some (default [] (lookup2 rd hostname iface)
               ++ lines_for hostname iface rows (FireSet.rset_iter rset))
    else lookup2 rd hostname iface.
Proof.
  revert rd. induction rows as [|row rows IH]; intros rd H.
  - by injection H as <-.
  - apply foldM_cons in H as (rd1 & H1 & H).
    rewrite (IH _ H), (compile_dict_row_lookup2 _ _ _ _ hostname iface H1).
    rewrite (lines_for_cons _ _ row rows). simpl.
    destruct (row_for hostname iface row) eqn:Hr; simpl.
    + destruct (existsb _ rows) eqn:Hrs; [by rewrite app_assoc|].
      by rewrite (lines_for_none _ _ _ _ Hrs), app_nil_r.
    + assert (lines_for hostname iface [row] (FireSet.rset_iter rset) = [])
        as -> by (unfold lines_for; simpl; rewrite Hr; by destruct row).
      by destruct (existsb _ rows).
Qed.

Lemma compile_dict_rows_OK (rset : FireSet.RSet) (rows : list FireSet.HostRow)
    (rd : gmap string (gmap string (list string))) :
  forallb row_is_fields rows = true →
  ∃ rd', foldM (FireSet.compile_dict_row rset) rows rd = OK rd'.
Proof.
  revert rd. induction rows as [|row rows IH]; intros rd H; [by eexists|].
  simpl in H. apply andb_true_iff in H as [Hr Hrs].
  destruct row as [h|hn i ipa ? ? ? ? ?]; [done|]. simpl. by apply IH.
Qed.

(** X14. Given eight-field rows and a list of rule lines, on a saved
    configuration, [compile_dict] returns a dictionary in which
    [rd[hostname][iface]] holds, for the rows of that hostname and
    interface taken in order, the lines that contain the row's address;
    a pair with no row has no entry. *)
Theorem compile_dict_lines (depth : nat) (self : FireSet.t)
    (rows : list FireSet.HostRow) (l : list string) :
  FireSet.save_needed self = OK false →
  rows ≠ [] → l ≠ [] →
  forallb row_is_fields rows = true →
  ∃ rd, FireSet.compile_dict depth self (Some rows) (Some (FireSet.RSetList l))
        = OK rd
    ∧ ∀ hostname iface,
        lookup2 rd hostname iface =
          if existsb (row_for hostname iface) rows
          then Some (lines_for hostname iface rows l) else None.
Proof.
  intros Hs Hrows Hl Hf.
  destruct (compile_dict_rows_OK (FireSet.RSetList l) rows ∅ Hf) as [rd Hrd].
  exists rd. split.
  - unfold FireSet.compile_dict. rewrite Hs. simpl.
    destruct rows as [|r rs]; [done|].
    unfold FireSet.rset_truthy. simpl.
    rewrite bool_decide_false by done. exact Hrd.
  - intros hostname iface.
    rewrite (compile_dict_rows_lookup2 _ _ _ _ hostname iface Hrd).
    unfold lookup2 at 1 2. by rewrite lookup_empty.
Qed.

Lemma compile_dict_lines_witness :
  ∃ rd, FireSet.compile_dict 1000 (fireset [] [] [] clean_status)
          (Some legacy_rows)
          (Some (FireSet.RSetList ["-s 1.2.3.1 -j ACCEPT"; "-d 1.2.3.10 -j DROP"]))
        = OK rd
    ∧ lookup2 rd "webserver" "eth0" = Some ["-d 1.2.3.10 -j DROP"]
    ∧ lookup2 rd "webserver" "eth1" = None.
Proof.
  destruct (compile_dict_lines 1000 (fireset [] [] [] clean_status) legacy_rows
              ["-s 1.2.3.1 -j ACCEPT"; "-d 1.2.3.10 -j DROP"])
    as (rd & Hrd & Hl); [reflexivity|discriminate|discriminate|reflexivity|].
  exists rd. split; [exact Hrd|]. split.
  - rewrite (Hl "webserver" "eth0"). reflexivity.
  - rewrite (Hl "webserver" "eth1"). reflexivity.
Defined.

(** ** Deployment, continued *)

(** [_get_confs] never returns: the store into [d[n]] or the subscript
    [0] ends it. *)
Lemma _get_confs_raises
    (sx_get_confs : gmap string (list string) → result (gmap string HostConf))
    (keep_sessions : bool) (self : FireSet.t) :
  ∃ e self' tr,
    FireSet._get_confs sx_get_confs keep_sessions self = (Raise e, self', tr)
    ∧ FireSet.rd self' = FireSet.rd self
    ∧ (tr = [] ∨ tr = [FireSet.EvGetConfs ∅])
    ∧ (FireSet.hosts self ≠ [] → tr = []).
Proof.
  unfold FireSet._get_confs, FireSet.act_bind, FireSet.act_read,
    FireSet.set_remote_confs, FireSet.get_confs.
  simpl. destruct (FireSet.hosts self) as [|h hs]; simpl.
  - destruct (sx_get_confs ∅) as [confs|e]; simpl.
    + eexists _, _, _. split; [reflexivity|]. split; [done|]. split; [by right|done].
    + eexists _, _, _. split; [reflexivity|]. split; [done|]. split; [by right|done].
  - eexists _, _, _. split; [reflexivity|]. split; [done|]. split; [by left|done].
Qed.

(** X15. [FireSet.deploy] never delivers: whatever the fleet client
    answers, the call ends with an exception, [self.rd] is as before, and
    the only request that can have been made is one [get_confs]; with a
    host in the table no request is made at all. *)
Theorem deploy_never_delivers
    (sx_get_confs : gmap string (list string) → result (gmap string HostConf))
    (sx_deliver_confs : gmap string (gmap string (list string)) → result unit)
    (sx_apply_remote_confs : result unit) (depth : nat) (self : FireSet.t) :
  ∃ e self' tr,
    FireSet.deploy sx_get_confs sx_deliver_confs sx_apply_remote_confs depth self
    = (Raise e, self', tr)
    ∧ FireSet.rd self' = FireSet.rd self
    ∧ (tr = [] ∨ tr = [FireSet.EvGetConfs ∅])
    ∧ (FireSet.hosts self ≠ [] → tr = []).
Proof.
  unfold FireSet.deploy, FireSet.act_bind, FireSet.act_read.
  destruct (FireSet.save_needed self) as [[|]|e]; simpl;
    [by eauto 10|..|by eauto 10].
  destruct (FireSet.compile depth self) as [comp|e]; simpl; [|by eauto 10].
  destruct (_get_confs_raises sx_get_confs true self)
    as (e & self' & tr & -> & Hrd & Htr & Hh).
  eauto 10.
Qed.
